(** * OpenLSTO, projects/stress_min/lbeam.cpp: the optimisation control loop

    A shallow embedding of the [while] loop of [main] (lbeam.cpp, lines
    328-467) and of the variables it owns.  The finite-element solver, the
    sensitivity engine, the level-set engine and the velocity optimiser are
    external collaborators: what they hand back in iteration [k] is read from
    an oracle [Z -> Engines], and every call the loop makes to them is
    recorded, in program order, in a trace.

    C++ [double] is Rocq's primitive binary64 [float]; [unsigned int] is [Z]
    with the wrap-around modulo 2^32 written out; [std::vector] is [list],
    and an access out of range (undefined behaviour in C++) makes the model
    return [None]. *)

From Stdlib Require String.
From Stdlib Require Import ZArith List Bool Lia Floats.
Import ListNotations.
Import String.StringSyntax.
Delimit Scope string_scope with string.
Open Scope Z_scope.

Set Implicit Arguments.
Set Warnings "-inexact-float".

(** ** Machine numbers *)

Definition double := float.
Bind Scope float_scope with double.
Definition uint := Z.

Definition wrap32 (z : Z) : uint := z mod 2 ^ 32.

(** The functions of the C++ standard library the loop uses. *)
Module Std.

(** [std::max(a, b)]: [(a < b) ? b : a]. *)
Definition max (a b : double) : double :=
  if (a <? b)%float then b else a.

(** [std::abs(double)]. *)
Definition abs (a : double) : double := PrimFloat.abs a.

(** [pow(a, 2)]. *)
Definition pow2 (a : double) : double := (a * a)%float.

(** [double(n)] for an [unsigned int] below 2^32. *)
Definition of_uint (n : uint) : double := PrimFloat.of_uint63 (Uint63.of_Z n).

End Std.

(** ** Option as the monad of defined behaviour *)

Definition bind {A B} (m : option A) (f : A -> option B) : option B :=
  match m with
  | Some a => f a
  | None => None
  end.

Notation "x <- m ;; k" := (bind m (fun x => k))
  (at level 61, m at next level, right associativity).

(** [v[i] = a] on a vector: [None] when [i] is out of range. *)
Fixpoint assign {A} (i : nat) (a : A) (v : list A) {struct v}
  : option (list A) :=
  match v, i with
  | [], _ => None
  | _ :: t, O => Some (a :: t)
  | h :: t, S j => t' <- assign j a t ;; Some (h :: t')
  end.

(** ** The data of the level-set library the loop touches *)
Module LSM.

Record Coord := { x : double; y : double }.

(** A boundary point, as far as the loop reads or writes it. *)
Record BoundaryPoint := {
  coord : Coord;
  sensitivities : list double
}.

End LSM.

(** ** The external engines

    [Engines] is what the collaborators hand back during one iteration. *)
Record Engines := {
  (** [boundary.points] after [boundary.discretise] *)
  discretise_points : list LSM.BoundaryPoint;
  (** [lsm_mesh.elements[i].area] after [boundary.computeAreaFractions] *)
  element_areas : list double;
  (** [boundary.area] after [boundary.computeAreaFractions] *)
  structure_area : double;
  (** [sens.objective] and [sens.von_mises_max] after
      [sens.ComputeStressSensitivities] *)
  objective : double;
  von_mises_max : double;
  (** the value [sens.ComputeBoundarySensitivities] interpolates at a point *)
  interpolate : double -> double -> double;
  (** [time_step], written through the reference given to [LSM::Optimise] *)
  solve_time_step : double;
  (** the vector [optimise.get_lambdas] leaves in [lambdas] *)
  got_lambdas : list double;
  (** the return value of [level_set.update] *)
  update_reinitialised : bool
}.

Definition oracle := Z -> Engines.

(** The arguments the velocity optimiser is constructed and configured with
    (lines 389-400). *)
Record OptimiseArgs := {
  opt_points : list LSM.BoundaryPoint;
  opt_move_limit : double;
  opt_length_x : double;
  opt_length_y : double;
  opt_boundary_area : double;
  opt_mesh_area : double;
  opt_max_area : double;
  opt_reduced_move_limit : double
}.

(** Calls to the collaborators, with the arguments the loop passes. *)
Inductive Call :=
| boundary_discretise (isTarget : bool) (n : Z)
| boundary_computeAreaFractions
| fea_AssembleKWithAreaFractions (area_fraction : list double)
| fea_AssembleF
| fea_SolveWithCG
| sens_ComputeStressSensitivities (p_norm : double)
| sens_ComputeBoundarySensitivities
    (boundary_point : list double) (radius : double) (sens_type : Z)
    (p_norm : double)
| optimise_Solve (args : OptimiseArgs)
| optimise_get_lambdas
| level_set_computeVelocities
| level_set_computeGradients
| level_set_update (time_step : double)
| level_set_reinitialise
| io_saveLevelSetVTK (iter : uint)
| io_saveAreaFractionsVTK (iter : uint)
| io_saveBoundarySegmentsTXT (iter : uint).

(** One field of a line of the history file. *)
Inductive Field :=
| FText (s : String.string)
| FUint (n : uint)
| FDouble (d : double).

(** A line of the history file: the fields written between the tabs, in
    order. *)
Definition Line := list Field.

(** ** The variables of [main] that the loop reads and writes *)
Record State := {
  count_iter : uint;
  num_reinit : double;
  time : double;
  lambdas : list double;
  objective_values : list double;
  relative_difference : double;
  (** [fea_mesh.solid_elements[i].area_fraction] *)
  solid_elements : list double;
  (** [boundary.points], as the loop of lines 362-376 leaves them, and
      [boundary.area] *)
  boundary_points : list LSM.BoundaryPoint;
  boundary_area : double;
  (** [sens.boundary_sensitivities] *)
  boundary_sensitivities : list double;
  (** the locals [constraint_distances] and [area] of the last iteration *)
  constraint_distances : list double;
  area : double;
  (** the lines of results/history/history.txt *)
  txt_file : list Line;
  (** the calls made so far, each with the value of [count_iter] *)
  calls : list (uint * Call)
}.

(** ** Constants of [main] *)

Definition num_elem_x : uint := 100.
Definition num_elem_y : uint := 100.
Definition sens_type : Z := 1.
Definition least_sq_radius : double := 2.0%float.
Definition move_limit : double := 0.5%float.
Definition max_iter : uint := 500.
Definition max_area : double := 0.4%float.
Definition p_norm : double := 6%float.
Definition reduced_move_limit : double := 0.15%float.

(** [LSM::Mesh lsm_mesh(num_elem_x, num_elem_y, is_periodic)]. *)
Definition lsm_mesh_width : uint := num_elem_x.
Definition lsm_mesh_height : uint := num_elem_y.

(** Lines 263-264. *)
Definition mesh_area : double :=
  (Std.of_uint (wrap32 (lsm_mesh_width * lsm_mesh_height))
   - Std.pow2 (Std.of_uint lsm_mesh_width * 3 / 5))%float.

(** ** The pieces of the loop body *)

(** Lines 341-342: the area fraction element [i] of the FEA mesh is given. *)
Definition clamp_area (a : double) : double :=
  if (a <? 1e-6)%float then 1e-6%float else a.

(** Lines 338-344, [for (uint i = 0; i < fea_mesh.solid_elements.size(); i++)]:
    [todo] iterations are left and the index is [i]. *)
Fixpoint assign_area_fractions (todo i : nat) (lsm fea : list double)
  : option (list double) :=
  match todo with
  | O => Some fea
  | S todo' =>
      a <- nth_error lsm i ;;
      fea' <- assign i (clamp_area a) fea ;;
      assign_area_fractions todo' (S i) lsm fea'
  end.

(** Modelled from the spec: [SensitivityAnalysis::ComputeBoundarySensitivities]
    belongs to the M2DO_FEA library, whose source is not at hand; lbeam.cpp
    only calls it.  "The engine returns one interpolated sensitivity
    value", which line 373 reads back as entry [i] of "the engine's transient
    per-call sensitivity buffer": the call appends the value interpolated at
    the point to [sens.boundary_sensitivities]. *)
Definition ComputeBoundarySensitivities
  (e : Engines) (boundary_point : list double) (buf : list double)
  : option (list double) :=
  px <- nth_error boundary_point 0 ;;
  py <- nth_error boundary_point 1 ;;
  Some (buf ++ [interpolate e px py]).

(** Lines 364-374: the body of the loop over the boundary points. *)
Definition assign_point_sensitivities
  (e : Engines) (i : nat) (pb : list LSM.BoundaryPoint * list double)
  : option (list LSM.BoundaryPoint * list double) :=
  let (points, buf) := pb in
  p <- nth_error points i ;;
  let boundary_point := [LSM.x (LSM.coord p); LSM.y (LSM.coord p)] in
  buf' <- ComputeBoundarySensitivities e boundary_point buf ;;
  b <- nth_error buf' i ;;
  s0 <- assign 0 (- b)%float (LSM.sensitivities p) ;;
  s1 <- assign 1 (-1)%float s0 ;;
  points' <- assign i {| LSM.coord := LSM.coord p; LSM.sensitivities := s1 |}
               points ;;
  Some (points', buf').

(** Lines 362-376, [for (int i = 0; i < boundary.points.size(); i++)]. *)
Fixpoint assign_sensitivities
  (todo i : nat) (e : Engines) (pb : list LSM.BoundaryPoint * list double)
  : option (list LSM.BoundaryPoint * list double) :=
  match todo with
  | O => Some pb
  | S todo' =>
      pb' <- assign_point_sensitivities e i pb ;;
      assign_sensitivities todo' (S i) e pb'
  end.

(** Lines 415-426, the reinitialisation scheduler: whether
    [level_set.reinitialise()] is called, and the new [num_reinit]. *)
Definition reinit_schedule (is_reinitialised : bool) (num_reinit : double)
  : bool * double :=
  let (forced, n) :=
    if negb is_reinitialised then
      if (num_reinit =? 1)%float then (true, 0%float)
      else (false, num_reinit)
    else (false, 0%float) in
  (forced, (n + 1)%float).

(** Line 445, the relative change of the objective between [k] and [m]. *)
Definition relative_change (objective_value_k objective_value_m : double)
  : double :=
  Std.abs ((objective_value_k - objective_value_m) / objective_value_k)%float.

(** Lines 442-447, [for (uint i = 1; i <= 5; i++)]. *)
Fixpoint difference_loop
  (todo : nat) (i : uint) (count_iter : uint) (objective_value_k : double)
  (objective_values : list double) (relative_difference : double)
  : option double :=
  match todo with
  | O => Some relative_difference
  | S todo' =>
      objective_value_m <-
        nth_error objective_values
          (Z.to_nat (wrap32 (wrap32 (count_iter - i) - 1))) ;;
      difference_loop todo' (wrap32 (i + 1)) count_iter objective_value_k
        objective_values
        (Std.max relative_difference
           (relative_change objective_value_k objective_value_m))
  end.

(** Lines 436-449. *)
Definition convergence_criterion
  (count_iter : uint) (objective_value_k : double)
  (objective_values : list double) (relative_difference : double)
  : option double :=
  if 5 <? count_iter then
    difference_loop 5 1 count_iter objective_value_k objective_values 0%float
  else Some relative_difference.

(** Lines 456-458. *)
Definition history_record
  (count_iter : uint) (e : Engines) (area relative_difference : double)
  : Line :=
  [FUint count_iter; FDouble (objective e); FDouble (von_mises_max e);
   FDouble area; FDouble relative_difference].

(** Line 465, the test that guards [break]. *)
Definition exit_test (st : State) : bool :=
  (relative_difference st <=? 0.0005)%float
  && (area st <=? 1.001 * max_area)%float.

(** ** The loop *)

(** The calls of one iteration, in program order. *)
Definition iteration_calls
  (st : State) (e : Engines) (k : uint) (fea : list double)
  (points0 points : list LSM.BoundaryPoint) (forced : bool) : list Call :=
  [boundary_discretise false (Z.of_nat (length (lambdas st)));
   boundary_computeAreaFractions;
   fea_AssembleKWithAreaFractions fea;
   fea_AssembleF;
   fea_SolveWithCG;
   sens_ComputeStressSensitivities p_norm]
  ++ map (fun p =>
            sens_ComputeBoundarySensitivities
              [LSM.x (LSM.coord p); LSM.y (LSM.coord p)]
              least_sq_radius sens_type p_norm) points0
  ++ [optimise_Solve
        {| opt_points := points;
           opt_move_limit := move_limit;
           opt_length_x := Std.of_uint lsm_mesh_width;
           opt_length_y := Std.of_uint lsm_mesh_height;
           opt_boundary_area := structure_area e;
           opt_mesh_area := mesh_area;
           opt_max_area := max_area;
           opt_reduced_move_limit := reduced_move_limit |};
      optimise_get_lambdas;
      level_set_computeVelocities;
      level_set_computeGradients;
      level_set_update (solve_time_step e)]
  ++ (if forced then [level_set_reinitialise] else [])
  ++ [io_saveLevelSetVTK k; io_saveAreaFractionsVTK k;
      io_saveBoundarySegmentsTXT k].

(** Lines 330-463: one pass through the body of the [while] loop, up to the
    test of line 465. *)
Definition body (o : oracle) (st : State) : option State :=
  (* 330 *)
  let k := wrap32 (count_iter st + 1) in
  let e := o k in
  (* 333-336 *)
  let points0 := discretise_points e in
  (* 338-344 *)
  fea <- assign_area_fractions (length (solid_elements st)) 0
           (element_areas e) (solid_elements st) ;;
  (* 362-376 *)
  pb <- assign_sensitivities (length points0) 0 e
          (points0, boundary_sensitivities st) ;;
  let points := fst pb in
  (* 383-386 *)
  let distances := [] ++ [(mesh_area * max_area - structure_area e)%float] in
  (* 415-426 *)
  let (forced, reinit) :=
    reinit_schedule (update_reinitialised e) (num_reinit st) in
  (* 432 *)
  let area_k := (structure_area e / mesh_area)%float in
  (* 435-449 *)
  let values := objective_values st ++ [objective e] in
  difference <- convergence_criterion k (objective e) values
                  (relative_difference st) ;;
  Some {|
    count_iter := k;
    num_reinit := reinit;
    (* 429 *)
    time := (time st + solve_time_step e)%float;
    (* 403 *)
    lambdas := got_lambdas e;
    objective_values := values;
    relative_difference := difference;
    solid_elements := fea;
    boundary_points := points;
    boundary_area := structure_area e;
    (* 378 *)
    boundary_sensitivities := [];
    constraint_distances := distances;
    area := area_k;
    (* 456-458 *)
    txt_file := txt_file st ++ [history_record k e area_k difference];
    calls := calls st
             ++ map (pair k) (iteration_calls st e k fea points0 points forced)
  |}.

(** Lines 328 and 465: [while (count_iter < max_iter) { ...; if (...) break; }].
    Each unit of [fuel] pays for one evaluation of the loop condition. *)
Fixpoint while_loop (fuel : nat) (o : oracle) (st : State) : option State :=
  match fuel with
  | O => None
  | S fuel' =>
      if count_iter st <? max_iter then
        st' <- body o st ;;
        if exit_test st' then Some st' else while_loop fuel' o st'
      else Some st
  end.

(** Line 309, the header of the history file. *)
Definition history_header : Line :=
  map FText ["Iteration"; "Stress"; "Tvm_max"; "Area"; "Change"]%string.

(** The variables when the loop is entered (lines 168, 260-272, 309);
    [fea0] holds the area fractions of the elements
    [fea_mesh.MeshSolidHyperRectangle] created.  [boundary_area] and [area]
    are assigned in every iteration before they are read: their entry value
    does not matter. *)
Definition init (fea0 : list double) : State := {|
  count_iter := 0;
  num_reinit := 0%float;
  time := 0%float;
  lambdas := [0%float; 0%float];
  objective_values := [];
  relative_difference := 1.0%float;
  solid_elements := fea0;
  boundary_points := [];
  boundary_area := 0%float;
  boundary_sensitivities := [];
  constraint_distances := [];
  area := 0%float;
  txt_file := [history_header];
  calls := []
|}.

(** The optimisation loop of [main]. *)
Definition main (fea0 : list double) (o : oracle) : option State :=
  while_loop (S (Z.to_nat max_iter)) o (init fea0).

(** The variables at the end of iteration [k], were the loop to run that
    far: [k] passes through the body. *)
Fixpoint after (fea0 : list double) (o : oracle) (k : nat) : option State :=
  match k with
  | O => Some (init fea0)
  | S k' => st <- after fea0 o k' ;; body o st
  end.

(** ** Scripted runs, to evaluate the definitions on *)

Definition stub_point (px py : double) : LSM.BoundaryPoint :=
  {| LSM.coord := {| LSM.x := px; LSM.y := py |};
     LSM.sensitivities := [0%float; 0%float] |}.

(** The objective falls from 20 by 2 per iteration down to 10 at iteration
    5 and stays there; the structure covers 2500 of 6400. *)
Definition stub (k : Z) : Engines := {|
  discretise_points := [stub_point 1 2; stub_point 3 4];
  element_areas := [0%float; 0.5%float; 1%float];
  structure_area := 2500%float;
  objective := if k <? 5 then Std.of_uint (20 - 2 * k) else 10%float;
  von_mises_max := 1%float;
  interpolate := fun px py => (px + py)%float;
  solve_time_step := 0.25%float;
  got_lambdas := [1%float; 2%float];
  update_reinitialised := Z.eqb k 3
|}.

Definition stub_fea0 : list double := [1%float; 1%float; 1%float].

(** A run whose objective never settles: with no elements and no boundary
    points, the objective of iteration [k] is [k]. *)
Definition restless (k : Z) : Engines := {|
  discretise_points := [];
  element_areas := [];
  structure_area := 2500%float;
  objective := Std.of_uint k;
  von_mises_max := 1%float;
  interpolate := fun px py => 0%float;
  solve_time_step := 0.25%float;
  got_lambdas := [1%float; 2%float];
  update_reinitialised := false
|}.

(** ** What the claims speak of *)

(** The calls made during iteration [k]: what the trace gained between the
    end of iteration [k - 1] and the end of iteration [k]. *)
Definition calls_during (fea0 : list double) (o : oracle) (k : nat)
  : option (list (uint * Call)) :=
  prev <- after fea0 o (k - 1) ;;
  st <- after fea0 o k ;;
  Some (skipn (length (calls prev)) (calls st)).

(** The scheduler replayed on a scripted sequence of answers of
    [level_set.update], from the counter [n]: for each iteration, whether
    [level_set.reinitialise()] is called. *)
Fixpoint replay (script : list bool) (n : double) : list bool :=
  match script with
  | [] => []
  | b :: script' =>
      fst (reinit_schedule b n)
      :: replay script' (snd (reinit_schedule b n))
  end.

(** The answers of [level_set.update] in iterations 1 to [k]. *)
Definition update_script (o : oracle) (k : nat) : list bool :=
  map (fun j => update_reinitialised (o (Z.of_nat j))) (seq 1 k).

(** The value of [num_reinit] that each iteration of the replay tests. *)
Fixpoint counters (script : list bool) (n : double) : list double :=
  match script with
  | [] => []
  | b :: script' => n :: counters script' (snd (reinit_schedule b n))
  end.

(** Every [double] the optimiser is handed: its scalar arguments, and the
    coordinates and sensitivities of the boundary points. *)
Definition optimise_doubles (args : OptimiseArgs) : list double :=
  [opt_move_limit args; opt_length_x args; opt_length_y args;
   opt_boundary_area args; opt_mesh_area args; opt_max_area args;
   opt_reduced_move_limit args]
  ++ flat_map (fun p =>
                 LSM.x (LSM.coord p) :: LSM.y (LSM.coord p)
                 :: LSM.sensitivities p) (opt_points args).

(** Every [double] handed to the optimiser by the calls [cs]. *)
Definition optimiser_inputs (cs : list (uint * Call)) : list double :=
  flat_map (fun c => match snd c with
                     | optimise_Solve args => optimise_doubles args
                     | _ => []
                     end) cs.

(** The lines of the history file below its header. *)
Definition records (file : list Line) : list Line := tl file.

(** ** The loops of the body in closed form *)

(** A point with room for the two sensitivities the loop writes. *)
Definition two_slots (p : LSM.BoundaryPoint) : Prop :=
  (2 <= length (LSM.sensitivities p))%nat.

Definition interpolate_at (e : Engines) (p : LSM.BoundaryPoint) : double :=
  interpolate e (LSM.x (LSM.coord p)) (LSM.y (LSM.coord p)).

(** The point the mapper leaves in place of [p]. *)
Definition mapped_point (e : Engines) (p : LSM.BoundaryPoint)
  : LSM.BoundaryPoint :=
  {| LSM.coord := LSM.coord p;
     LSM.sensitivities :=
       (- interpolate_at e p)%float :: (-1)%float
       :: skipn 2 (LSM.sensitivities p) |}.

(** The entries of the objective history that iteration [k] compares with:
    those of iterations [k-1], ..., [k-5]. *)
Definition window (k : nat) (values : list double) : list double :=
  map (fun i => nth (k - i - 1) values 0%float) [1; 2; 3; 4; 5]%nat.

(** ** One iteration in closed form *)

Definition next_difference
  (k : uint) (ok : double) (values : list double) (rd : double) : double :=
  if 5 <? k then
    fold_left Std.max (map (relative_change ok) (window (Z.to_nat k) values))
      0%float
  else rd.

(** The variables after a pass through the body that meets no access out of
    range. *)
Definition next (o : oracle) (st : State) : State :=
  let k := count_iter st + 1 in
  let e := o k in
  let fea :=
    map clamp_area (firstn (length (solid_elements st)) (element_areas e)) in
  let points := map (mapped_point e) (discretise_points e) in
  let sched := reinit_schedule (update_reinitialised e) (num_reinit st) in
  let area_k := (structure_area e / mesh_area)%float in
  let values := objective_values st ++ [objective e] in
  let difference :=
    next_difference k (objective e) values (relative_difference st) in
  {| count_iter := k;
     num_reinit := snd sched;
     time := (time st + solve_time_step e)%float;
     lambdas := got_lambdas e;
     objective_values := values;
     relative_difference := difference;
     solid_elements := fea;
     boundary_points := points;
     boundary_area := structure_area e;
     boundary_sensitivities := [];
     constraint_distances := [(mesh_area * max_area - structure_area e)%float];
     area := area_k;
     txt_file := txt_file st ++ [history_record k e area_k difference];
     calls := calls st
              ++ map (pair k)
                   (iteration_calls st e k fea (discretise_points e) points
                      (fst sched)) |}.

(** What a state must satisfy for the body to run without an access out of
    range: the counter does not wrap, the history has one entry per
    iteration, the sensitivity buffer is empty, and the engines hand back
    enough elements and sensitivity slots. *)
Record body_pre (o : oracle) (st : State) : Prop := {
  pre_count : 0 <= count_iter st < 2 ^ 32 - 1;
  pre_values : length (objective_values st) = Z.to_nat (count_iter st);
  pre_buffer : boundary_sensitivities st = [];
  pre_elements :
    (length (solid_elements st)
     <= length (element_areas (o (count_iter st + 1)%Z)))%nat;
  pre_points : Forall two_slots (discretise_points (o (count_iter st + 1)))
}.

(** ** The run as a function of the engines

    What the loop has computed after [k] iterations, written directly from
    the answers of the engines. *)

Definition engines_ok (fea0 : list double) (o : oracle) : Prop :=
  forall k : Z,
    (length fea0 <= length (element_areas (o k)))%nat
    /\ Forall two_slots (discretise_points (o k)).

Definition objective_at (o : oracle) (k : nat) : double :=
  objective (o (Z.of_nat k)).

(** The objective history after [k] iterations. *)
Definition history (o : oracle) (k : nat) : list double :=
  map (objective_at o) (seq 1 k).

(** The relative changes of the objective between iteration [k] and the
    iterations [k-1], ..., [k-5]. *)
Definition change_window (o : oracle) (k : nat) : list double :=
  map (fun i => relative_change (objective_at o k) (objective_at o (k - i)))
    [1; 2; 3; 4; 5]%nat.

(** The value of [relative_difference] at the end of iteration [k]. *)
Definition metric (o : oracle) (k : nat) : double :=
  if (k <=? 5)%nat then 1.0%float
  else fold_left Std.max (change_window o k) 0%float.

(** [lambdas] at the end of iteration [k]. *)
Definition lambdas_at (o : oracle) (k : nat) : list double :=
  match k with
  | O => [0%float; 0%float]
  | S _ => got_lambdas (o (Z.of_nat k))
  end.

(** Whether iteration [k] calls [level_set.reinitialise()]. *)
Definition forced_at (o : oracle) (k : nat) : bool :=
  (2 <=? k)%nat && negb (update_reinitialised (o (Z.of_nat k))).

Definition fractions_at (fea0 : list double) (o : oracle) (k : nat)
  : list double :=
  map clamp_area (firstn (length fea0) (element_areas (o (Z.of_nat k)))).

Definition points_at (o : oracle) (k : nat) : list LSM.BoundaryPoint :=
  map (mapped_point (o (Z.of_nat k))) (discretise_points (o (Z.of_nat k))).

Definition area_at (o : oracle) (k : nat) : double :=
  (structure_area (o (Z.of_nat k)) / mesh_area)%float.

(** The line iteration [k] appends to the history file. *)
Definition record_at (o : oracle) (k : nat) : Line :=
  history_record (Z.of_nat k) (o (Z.of_nat k)) (area_at o k) (metric o k).

(** The calls of iteration [k]. *)
Definition call_list (fea0 : list double) (o : oracle) (k : nat)
  : list Call :=
  let e := o (Z.of_nat k) in
  [boundary_discretise false (Z.of_nat (length (lambdas_at o (k - 1))));
   boundary_computeAreaFractions;
   fea_AssembleKWithAreaFractions (fractions_at fea0 o k);
   fea_AssembleF;
   fea_SolveWithCG;
   sens_ComputeStressSensitivities p_norm]
  ++ map (fun p =>
            sens_ComputeBoundarySensitivities
              [LSM.x (LSM.coord p); LSM.y (LSM.coord p)]
              least_sq_radius sens_type p_norm) (discretise_points e)
  ++ [optimise_Solve
        {| opt_points := points_at o k;
           opt_move_limit := move_limit;
           opt_length_x := Std.of_uint lsm_mesh_width;
           opt_length_y := Std.of_uint lsm_mesh_height;
           opt_boundary_area := structure_area e;
           opt_mesh_area := mesh_area;
           opt_max_area := max_area;
           opt_reduced_move_limit := reduced_move_limit |};
      optimise_get_lambdas;
      level_set_computeVelocities;
      level_set_computeGradients;
      level_set_update (solve_time_step e)]
  ++ (if forced_at o k then [level_set_reinitialise] else [])
  ++ [io_saveLevelSetVTK (Z.of_nat k); io_saveAreaFractionsVTK (Z.of_nat k);
      io_saveBoundarySegmentsTXT (Z.of_nat k)].

(** The same calls, each with the value of [count_iter]. *)
Definition calls_at (fea0 : list double) (o : oracle) (k : nat)
  : list (uint * Call) :=
  map (pair (Z.of_nat k)) (call_list fea0 o k).

(** What iteration [k >= 1] leaves in the variables it assigns afresh. *)
Record iteration_end (fea0 : list double) (o : oracle) (k : nat) (st : State)
  : Prop := {
  end_elements : solid_elements st = fractions_at fea0 o k;
  end_points : boundary_points st = points_at o k;
  end_boundary_area : boundary_area st = structure_area (o (Z.of_nat k));
  end_distances :
    constraint_distances st
    = [(mesh_area * max_area - structure_area (o (Z.of_nat k)))%float];
  end_area : area st = area_at o k
}.

(** The variables at the end of iteration [k] ([k = 0]: on entry). *)
Record reached (fea0 : list double) (o : oracle) (k : nat) (st : State)
  : Prop := {
  at_count : count_iter st = Z.of_nat k;
  at_reinit : num_reinit st = if (k =? 0)%nat then 0%float else 1%float;
  at_lambdas : lambdas st = lambdas_at o k;
  at_values : objective_values st = history o k;
  at_difference : relative_difference st = metric o k;
  at_elements : length (solid_elements st) = length fea0;
  at_buffer : boundary_sensitivities st = [];
  at_file : txt_file st = history_header :: map (record_at o) (seq 1 k);
  at_calls : calls st = flat_map (calls_at fea0 o) (seq 1 k);
  at_end : (1 <= k)%nat -> iteration_end fea0 o k st
}.

(** ** Binary64

    Case analysis on [spec_float], through which [<?], [<=?] and [abs] on
    [double] are specified. *)

Ltac sf_destruct x :=
  let s := fresh "s" in
  destruct x as [s|s| |s ? ?]; try destruct s.

Ltac cmp_cases :=
  repeat match goal with
         | |- context [Pos.compare_cont Eq ?a ?b] =>
             change (Pos.compare_cont Eq a b) with (Pos.compare a b)
         end;
  repeat match goal with
         | |- context [Z.compare ?a ?b] => destruct (Z.compare_spec a b)
         | |- context [Pos.compare ?a ?b] => destruct (Pos.compare_spec a b)
         end.

(** [a] is a number. *)
Definition not_nan (a : double) : Prop := is_nan a = false.

(** ** The maximum of a list of doubles *)

(** [r] is the greatest of [vs]: one of them, and none is above it. *)
Definition is_maximum (r : double) (vs : list double) : Prop :=
  In r vs /\ Forall (fun v => (v <=? r)%float = true) vs.

(** ** The calls of an iteration, one by one *)

Ltac in_cases H :=
  repeat match type of H with
         | _ \/ _ => destruct H as [H | H]
         | False => destruct H
         | In _ (_ ++ _) => apply in_app_iff in H
         | In _ (_ :: _) => cbn [In] in H
         | In _ [] => cbn [In] in H
         | In _ (map _ _) =>
             let p := fresh "p" in
             apply in_map_iff in H; destruct H as [p [H _]]
         | In _ (if ?b then _ else _) => destruct b
         | _ = _ => first [discriminate H | idtac]
         end.

Ltac in_call_list H := unfold call_list in H; in_cases H.

(** ** The point load (lines 106-113) *)

(** Lines 108-113, [for (uint i = 0; i < num_load_nodes; i++)]: [todo]
    iterations are left and the index is [i]. *)
Fixpoint load_values_loop
  (todo : nat) (i : uint) (num_load_nodes : uint) (load_values : list double)
  : option (list double) :=
  match todo with
  | O => Some load_values
  | S todo' =>
      v0 <- assign (Z.to_nat (wrap32 (2 * i))) 0%float load_values ;;
      v1 <- assign (Z.to_nat (wrap32 (wrap32 (2 * i) + 1)))
              (-3.0 / Std.of_uint num_load_nodes)%float v0 ;;
      load_values_loop todo' (wrap32 (i + 1)) num_load_nodes v1
  end.

(** Lines 106-113: the load vector for [size] load nodes
    ([load_nodes.size()], a [size_t]). *)
Definition point_load_values (size : Z) : option (list double) :=
  let num_load_nodes := wrap32 size in
  load_values_loop (Z.to_nat num_load_nodes) 0 num_load_nodes
    (repeat 0%float (Z.to_nat ((size * 2) mod 2 ^ 64))).

(** ** What the further properties speak of *)

(** The test of line 465 at the end of iteration [k], from the answers of
    the engines. *)
Definition exit_at (o : oracle) (k : nat) : bool :=
  (metric o k <=? 0.0005)%float && (area_at o k <=? 1.001 * max_area)%float.

(** The point the loop of lines 362-376 leaves in place of [p] when it reads
    [v] from the buffer. *)
Definition point_with (pv : LSM.BoundaryPoint * double) : LSM.BoundaryPoint :=
  {| LSM.coord := LSM.coord (fst pv);
     LSM.sensitivities :=
       (- snd pv)%float :: (-1)%float
       :: skipn 2 (LSM.sensitivities (fst pv)) |}.


Definition is_snapshot (c : uint * Call) : bool :=
  match snd c with
  | io_saveLevelSetVTK _ | io_saveAreaFractionsVTK _
  | io_saveBoundarySegmentsTXT _ => true
  | _ => false
  end.

(** A second scripted run: the objective and the area of [stub], everything
    else different. *)
Definition stub_other (k : Z) : Engines := {|
  discretise_points := [stub_point 5 6];
  element_areas := [1%float];
  structure_area := structure_area (stub k);
  objective := objective (stub k);
  von_mises_max := 1%float;
  interpolate := fun px py => (px * py)%float;
  solve_time_step := 0.5%float;
  got_lambdas := [3%float; 4%float; 5%float];
  update_reinitialised := true
|}.

(** A run whose solver fails: every objective is NaN. *)
Definition stub_nan (k : Z) : Engines := {|
  discretise_points := [];
  element_areas := [];
  structure_area := 2500%float;
  objective := nan;
  von_mises_max := nan;
  interpolate := fun px py => 0%float;
  solve_time_step := 0.25%float;
  got_lambdas := [1%float; 2%float];
  update_reinitialised := false
|}.

(** A call that advances the level set or writes a snapshot. *)
Definition is_late (c : uint * Call) : bool :=
  match snd c with
  | level_set_update _ | level_set_reinitialise => true
  | _ => is_snapshot c
  end.

(** The calls of iteration [k] up to the update of the level set: boundary,
    solver, sensitivities and optimiser. *)
Definition early_calls (fea0 : list double) (o : oracle) (k : nat)
  : list Call :=
  let e := o (Z.of_nat k) in
  [boundary_discretise false (Z.of_nat (length (lambdas_at o (k - 1))));
   boundary_computeAreaFractions;
   fea_AssembleKWithAreaFractions (fractions_at fea0 o k);
   fea_AssembleF;
   fea_SolveWithCG;
   sens_ComputeStressSensitivities p_norm]
  ++ map (fun p =>
            sens_ComputeBoundarySensitivities
              [LSM.x (LSM.coord p); LSM.y (LSM.coord p)]
              least_sq_radius sens_type p_norm) (discretise_points e)
  ++ [optimise_Solve
        {| opt_points := points_at o k;
           opt_move_limit := move_limit;
           opt_length_x := Std.of_uint lsm_mesh_width;
           opt_length_y := Std.of_uint lsm_mesh_height;
           opt_boundary_area := structure_area e;
           opt_mesh_area := mesh_area;
           opt_max_area := max_area;
           opt_reduced_move_limit := reduced_move_limit |};
      optimise_get_lambdas;
      level_set_computeVelocities;
      level_set_computeGradients].

(** * Properties *)

(** ** Vectors *)

Lemma nth_error_middle {A} (done rest : list A) (a : A) :
  nth_error (done ++ a :: rest) (length done) = Some a.
Proof.
  induction done as [|d done IH]; simpl; [reflexivity | exact IH].
Qed.

Lemma assign_middle {A} (done rest : list A) (a b : A) :
  assign (length done) b (done ++ a :: rest) = Some (done ++ b :: rest).
Proof.
  induction done as [|d done IH]; simpl; [reflexivity |].
  rewrite IH. reflexivity.
Qed.

(** ** The area-fraction loop (lines 338-344) *)

Lemma assign_area_fractions_middle (rest : list double) :
  forall done lsm_done lsm_rest,
    length lsm_done = length done ->
    (length rest <= length lsm_rest)%nat ->
    assign_area_fractions (length rest) (length done)
      (lsm_done ++ lsm_rest) (done ++ rest)
    = Some (done ++ map clamp_area (firstn (length rest) lsm_rest)).
Proof.
  induction rest as [|r rest IH]; intros done lsm_done lsm_rest Hd Hl.
  - simpl. reflexivity.
  - destruct lsm_rest as [|a lsm_rest]; [simpl in Hl; lia |].
    simpl in Hl. cbn [length assign_area_fractions].
    rewrite <- Hd at 1. rewrite nth_error_middle. cbn [bind].
    rewrite assign_middle. cbn [bind].
    replace (S (length done)) with (length (done ++ [clamp_area a]))
      by (rewrite length_app; simpl; lia).
    replace (lsm_done ++ a :: lsm_rest) with ((lsm_done ++ [a]) ++ lsm_rest)
      by (rewrite <- app_assoc; reflexivity).
    replace (done ++ clamp_area a :: rest)
      with ((done ++ [clamp_area a]) ++ rest)
      by (rewrite <- app_assoc; reflexivity).
    rewrite IH.
    + rewrite <- app_assoc. reflexivity.
    + rewrite !length_app. simpl. lia.
    + lia.
Qed.

(** The loop gives every element of the FEA mesh the clamped area of the
    level-set element with the same index. *)
Lemma assign_area_fractions_spec (lsm fea : list double) :
  (length fea <= length lsm)%nat ->
  assign_area_fractions (length fea) 0 lsm fea
  = Some (map clamp_area (firstn (length fea) lsm)).
Proof.
  intros H.
  exact (@assign_area_fractions_middle fea [] [] lsm eq_refl H).
Qed.

(** ** The sensitivity mapper (lines 362-376) *)

Lemma assign_sensitivities_middle (e : Engines) (rest : list LSM.BoundaryPoint) :
  forall done buf,
    length buf = length done ->
    Forall two_slots rest ->
    assign_sensitivities (length rest) (length done) e (done ++ rest, buf)
    = Some (done ++ map (mapped_point e) rest,
            buf ++ map (interpolate_at e) rest).
Proof.
  induction rest as [|p rest IH]; intros done buf Hb Hs.
  - simpl. rewrite !app_nil_r. reflexivity.
  - inversion Hs as [|p' rest' Hp Hrest]; subst.
    cbn [length assign_sensitivities assign_point_sensitivities].
    rewrite nth_error_middle. cbn [bind].
    unfold ComputeBoundarySensitivities. cbn [nth_error bind].
    rewrite <- Hb at 1. rewrite nth_error_middle. cbn [bind].
    unfold two_slots in Hp.
    destruct (LSM.sensitivities p) as [|s0 [|s1 ss]] eqn:Es;
      [simpl in Hp; lia | simpl in Hp; lia |].
    cbn [assign bind].
    rewrite assign_middle. cbn [bind].
    replace (S (length done))
      with (length (done ++ [mapped_point e p]))
      by (rewrite length_app; simpl; lia).
    replace (done ++ {| LSM.coord := LSM.coord p;
                        LSM.sensitivities :=
                          (- interpolate e (LSM.x (LSM.coord p))
                               (LSM.y (LSM.coord p)))%float
                          :: (-1)%float :: ss |} :: rest)
      with ((done ++ [mapped_point e p]) ++ rest).
    + rewrite IH.
      * rewrite <- !app_assoc. reflexivity.
      * rewrite !length_app. simpl. lia.
      * assumption.
    + rewrite <- app_assoc. unfold mapped_point, interpolate_at.
      rewrite Es. reflexivity.
Qed.

(** Entered with an empty buffer, the mapper rewrites every point and leaves
    one interpolated value per point in the buffer. *)
Lemma assign_sensitivities_spec (e : Engines) (points : list LSM.BoundaryPoint) :
  Forall two_slots points ->
  assign_sensitivities (length points) 0 e (points, [])
  = Some (map (mapped_point e) points, map (interpolate_at e) points).
Proof.
  intros H.
  exact (@assign_sensitivities_middle e points [] [] eq_refl H).
Qed.

(** ** The convergence criterion (lines 436-449) *)

Lemma wrap32_small (z : Z) : 0 <= z < 2 ^ 32 -> wrap32 z = z.
Proof. intros H. unfold wrap32. apply Z.mod_small. exact H. Qed.

Lemma window_index (k : nat) (i : Z) :
  1 <= i <= 5 -> (6 <= k)%nat -> Z.of_nat k < 2 ^ 32 ->
  Z.to_nat (wrap32 (wrap32 (Z.of_nat k - i) - 1)) = (k - Z.to_nat i - 1)%nat.
Proof.
  intros Hi Hk Hb.
  rewrite (wrap32_small (z := Z.of_nat k - i)) by lia.
  rewrite wrap32_small by lia. lia.
Qed.

Lemma nth_error_nth_default (values : list double) (j : nat) :
  (j < length values)%nat ->
  nth_error values j = Some (nth j values 0%float).
Proof. intros H. apply nth_error_nth'. exact H. Qed.

Lemma difference_loop_spec (k : nat) (values : list double) (ok : double) :
  (6 <= k)%nat -> Z.of_nat k < 2 ^ 32 -> length values = k ->
  difference_loop 5 1 (Z.of_nat k) ok values 0%float
  = Some (fold_left Std.max (map (relative_change ok) (window k values))
            0%float).
Proof.
  intros Hk Hb Hl.
  cbn [difference_loop].
  change (wrap32 (1 + 1)) with 2.
  change (wrap32 (2 + 1)) with 3.
  change (wrap32 (3 + 1)) with 4.
  change (wrap32 (4 + 1)) with 5.
  rewrite !window_index by lia.
  rewrite !nth_error_nth_default by lia.
  reflexivity.
Qed.

(** ** The scheduler (lines 415-426) *)

Lemma reinit_schedule_zero (b : bool) :
  reinit_schedule b 0%float = (false, 1%float).
Proof. destruct b; reflexivity. Qed.

Lemma reinit_schedule_one (b : bool) :
  reinit_schedule b 1%float = (negb b, 1%float).
Proof. destruct b; reflexivity. Qed.

(** ** One iteration *)

Lemma body_next (o : oracle) (st : State) :
  body_pre o st -> body o st = Some (next o st).
Proof.
  intros [Hc Hv Hb He Hp].
  unfold body.
  rewrite (wrap32_small (z := count_iter st + 1)) by lia.
  set (k := count_iter st + 1) in *.
  rewrite assign_area_fractions_spec by exact He. cbn [bind].
  rewrite Hb, assign_sensitivities_spec by exact Hp. cbn [bind fst].
  unfold next. fold k.
  destruct (reinit_schedule (update_reinitialised (o k)) (num_reinit st))
    as [forced reinit].
  cbn [fst snd].
  assert (Hd : convergence_criterion k (objective (o k))
                 (objective_values st ++ [objective (o k)])
                 (relative_difference st)
               = Some (next_difference k (objective (o k))
                         (objective_values st ++ [objective (o k)])
                         (relative_difference st))).
  { unfold convergence_criterion, next_difference.
    destruct (5 <? k) eqn:E; [|reflexivity].
    apply Z.ltb_lt in E.
    replace k with (Z.of_nat (Z.to_nat k)) at 1 by lia.
    apply difference_loop_spec; try lia.
    rewrite length_app, Hv. simpl. lia. }
  rewrite Hd. cbn [bind]. reflexivity.
Qed.

(** ** The run, iteration by iteration *)

Lemma history_S (o : oracle) (k : nat) :
  history o (S k) = history o k ++ [objective_at o (S k)].
Proof.
  unfold history. rewrite seq_S, map_app. reflexivity.
Qed.

Lemma history_nth (o : oracle) (k j : nat) :
  (j < k)%nat -> nth j (history o k) 0%float = objective_at o (S j).
Proof.
  intros H. unfold history.
  rewrite (nth_indep _ 0%float (objective_at o 0))
    by (rewrite length_map, length_seq; exact H).
  rewrite map_nth, seq_nth by exact H. reflexivity.
Qed.

Lemma window_history (o : oracle) (k : nat) :
  (6 <= k)%nat ->
  map (relative_change (objective_at o k)) (window k (history o k))
  = change_window o k.
Proof.
  intros H. unfold window, change_window. cbn [map].
  rewrite !history_nth by lia.
  repeat match goal with
         | |- context [S (k - ?i - 1)] =>
             replace (S (k - i - 1)) with (k - i)%nat by lia
         end.
  reflexivity.
Qed.

Lemma next_difference_metric (o : oracle) (k : nat) :
  next_difference (Z.of_nat (S k)) (objective_at o (S k))
    (history o (S k)) (metric o k)
  = metric o (S k).
Proof.
  unfold next_difference, metric.
  destruct (5 <? Z.of_nat (S k)) eqn:E.
  - apply Z.ltb_lt in E.
    destruct (Nat.leb_spec (S k) 5) as [H|H]; [lia |].
    rewrite Nat2Z.id, window_history by lia. reflexivity.
  - apply Z.ltb_ge in E.
    destruct (Nat.leb_spec (S k) 5) as [H|H]; [|lia].
    destruct (Nat.leb_spec k 5) as [H'|H']; [reflexivity | lia].
Qed.

Lemma reached_init (fea0 : list double) (o : oracle) :
  reached fea0 o 0 (init fea0).
Proof. constructor; try reflexivity. intros H. inversion H. Qed.

Lemma reached_pre (fea0 : list double) (o : oracle) (k : nat) (st : State) :
  engines_ok fea0 o -> Z.of_nat k < 2 ^ 32 - 1 ->
  reached fea0 o k st -> body_pre o st.
Proof.
  intros Hok Hk R. destruct (Hok (count_iter st + 1)) as [He Hp].
  constructor.
  - rewrite (at_count R). lia.
  - rewrite (at_values R), (at_count R). unfold history.
    rewrite length_map, length_seq. lia.
  - exact (at_buffer R).
  - rewrite (at_elements R). exact He.
  - exact Hp.
Qed.

Lemma forced_schedule (o : oracle) (k : nat) :
  reinit_schedule (update_reinitialised (o (Z.of_nat (S k))))
    (if (k =? 0)%nat then 0%float else 1%float)
  = (forced_at o (S k), 1%float).
Proof.
  unfold forced_at. destruct k as [|k].
  - apply reinit_schedule_zero.
  - cbn [Nat.eqb Nat.leb andb]. apply reinit_schedule_one.
Qed.

Lemma reached_next (fea0 : list double) (o : oracle) (k : nat) (st : State) :
  engines_ok fea0 o ->
  reached fea0 o k st -> reached fea0 o (S k) (next o st).
Proof.
  intros Hok R.
  assert (Hk : count_iter st + 1 = Z.of_nat (S k))
    by (rewrite (at_count R); lia).
  destruct (Hok (Z.of_nat (S k))) as [He _].
  unfold next. rewrite Hk.
  rewrite (at_reinit R), forced_schedule, (at_values R), (at_difference R).
  fold (objective_at o (S k)). rewrite <- history_S, next_difference_metric.
  constructor; [| | | | | | | | | intros _; constructor];
    cbn [count_iter num_reinit lambdas objective_values
           relative_difference solid_elements boundary_points boundary_area
           boundary_sensitivities constraint_distances area txt_file calls
           fst snd].
  - reflexivity.
  - reflexivity.
  - reflexivity.
  - reflexivity.
  - reflexivity.
  - rewrite length_map, length_firstn, (at_elements R). lia.
  - reflexivity.
  - rewrite (at_file R), seq_S, map_app. reflexivity.
  - rewrite (at_calls R), seq_S, flat_map_app. cbn [flat_map].
    rewrite app_nil_r. f_equal.
    unfold calls_at, call_list, iteration_calls, fractions_at, points_at.
    cbn [Nat.add]. rewrite (at_lambdas R), (at_elements R).
    replace (S k - 1)%nat with k by lia. reflexivity.
  - unfold fractions_at. rewrite (at_elements R). reflexivity.
  - reflexivity.
  - reflexivity.
  - reflexivity.
  - reflexivity.
Qed.

(** With engines that keep their contract, the body runs through without an
    access out of range, as often as the counter can count. *)
Lemma after_reached (fea0 : list double) (o : oracle) :
  engines_ok fea0 o ->
  forall k : nat, Z.of_nat k < 2 ^ 32 ->
    exists st, after fea0 o k = Some st /\ reached fea0 o k st.
Proof.
  intros Hok. induction k as [|k IH]; intros Hk.
  - exists (init fea0). split; [reflexivity | apply reached_init].
  - destruct IH as [st [Ha R]]; [lia |].
    exists (next o st). split.
    + cbn [after]. rewrite Ha. cbn [bind].
      apply body_next. eapply reached_pre; eauto. lia.
    + apply reached_next; assumption.
Qed.

Lemma after_unique (fea0 : list double) (o : oracle) (k : nat) (st : State) :
  engines_ok fea0 o -> Z.of_nat k < 2 ^ 32 ->
  after fea0 o k = Some st -> reached fea0 o k st.
Proof.
  intros Hok Hk Ha.
  destruct (after_reached Hok k Hk) as [st' [Ha' R]].
  congruence.
Qed.

(** ** The [while] loop *)

Lemma max_iter_value : max_iter = Z.of_nat 500.
Proof. reflexivity. Qed.

(** From the end of iteration [k], the loop runs on to the first iteration
    [n] whose exit test holds, or to the ceiling. *)
Lemma while_loop_after (fea0 : list double) (o : oracle) :
  engines_ok fea0 o ->
  forall (fuel k : nat) (st : State),
    (k <= 500)%nat -> (500 - k < fuel)%nat ->
    after fea0 o k = Some st ->
    exists (n : nat) (st' : State),
      while_loop fuel o st = Some st'
      /\ after fea0 o n = Some st'
      /\ (k <= n <= 500)%nat
      /\ (k < 500 -> k < n)%nat
      /\ (forall j, (k < j < n)%nat ->
            exists stj, after fea0 o j = Some stj /\ exit_test stj = false)
      /\ ((k < n)%nat /\ exit_test st' = true \/ n = 500%nat).
Proof.
  intros Hok. induction fuel as [|fuel IH]; intros k st Hk Hf Ha; [lia |].
  assert (R : reached fea0 o k st) by (apply after_unique; [exact Hok | lia | exact Ha]).
  cbn [while_loop]. rewrite (at_count R), max_iter_value.
  destruct (Z.ltb_spec (Z.of_nat k) (Z.of_nat 500)) as [Hlt|Hge].
  - assert (Hb : body o st = Some (next o st))
      by (apply body_next; eapply reached_pre; eauto; lia).
    assert (Ha' : after fea0 o (S k) = Some (next o st))
      by (cbn [after]; rewrite Ha; exact Hb).
    rewrite Hb. cbn [bind].
    destruct (exit_test (next o st)) eqn:Ex.
    + exists (S k), (next o st).
      refine (conj eq_refl (conj Ha' (conj _ (conj _ (conj _ _))))).
      * lia.
      * lia.
      * intros j Hj. lia.
      * left. split; [lia | exact Ex].
    + destruct (IH (S k) (next o st)) as [n [st' [Hw [Hn [Hr [Hs [Hj He]]]]]]];
        [lia | lia | exact Ha' |].
      exists n, st'.
      refine (conj Hw (conj Hn (conj _ (conj _ (conj _ _))))).
      * lia.
      * lia.
      * intros j Hj'. destruct (Nat.eq_dec j (S k)) as [->|Hne].
        -- exists (next o st). split; assumption.
        -- apply Hj. lia.
      * destruct He as [[Hkn He]|He];
          [left; split; [lia | exact He] | right; exact He].
  - exists k, st.
    refine (conj eq_refl (conj Ha (conj _ (conj _ (conj _ _))))).
    + lia.
    + lia.
    + intros j Hj. lia.
    + right. lia.
Qed.

(** ** The order of binary64

    A NaN compares with nothing; on the other values the order is total. *)

Lemma SFleb_trans (a b c : spec_float) :
  SFleb a b = true -> SFleb b c = true -> SFleb a c = true.
Proof.
  unfold SFleb, SFcompare.
  sf_destruct a; sf_destruct b; sf_destruct c;
    try reflexivity; try (intros; discriminate);
    cmp_cases; cbn; intros; subst; try reflexivity; try discriminate; try lia.
Qed.

Lemma SFltb_leb (a b : spec_float) : SFltb a b = true -> SFleb a b = true.
Proof.
  unfold SFltb, SFleb.
  destruct (SFcompare a b) as [[| |]|]; intros; congruence.
Qed.

Lemma SFleb_total (a b : spec_float) :
  a <> S754_nan -> b <> S754_nan -> SFltb a b = false -> SFleb b a = true.
Proof.
  unfold SFleb, SFltb, SFcompare.
  sf_destruct a; sf_destruct b; intros Ha Hb;
    try reflexivity; try congruence; try (intros; discriminate);
    cmp_cases; cbn; intros; subst; try reflexivity; try discriminate; try lia.
Qed.

Lemma SFeqb_refl (a : spec_float) : a <> S754_nan -> SFeqb a a = true.
Proof.
  unfold SFeqb, SFcompare.
  sf_destruct a; intros H; try reflexivity; try congruence;
    cmp_cases; cbn; subst; try reflexivity; try lia.
Qed.

Lemma SFabs_nonneg (a : spec_float) :
  a <> S754_nan -> SFleb (S754_zero false) (SFabs a) = true.
Proof. sf_destruct a; intros H; try reflexivity; congruence. Qed.

Lemma SFabs_nonpos (a : spec_float) :
  SFleb (SFabs a) (S754_zero false) = true -> SFabs a = S754_zero false.
Proof. sf_destruct a; cbn; intros H; try reflexivity; discriminate. Qed.

Lemma not_nan_spec (a : double) : not_nan a <-> Prim2SF a <> S754_nan.
Proof.
  unfold not_nan, is_nan. rewrite eqb_spec. split.
  - intros H E. rewrite E in H. discriminate.
  - intros H. rewrite SFeqb_refl by exact H. reflexivity.
Qed.

Lemma leb_trans (a b c : double) :
  (a <=? b)%float = true -> (b <=? c)%float = true -> (a <=? c)%float = true.
Proof. rewrite !leb_spec. apply SFleb_trans. Qed.

Lemma ltb_leb (a b : double) :
  (a <? b)%float = true -> (a <=? b)%float = true.
Proof. rewrite ltb_spec, leb_spec. apply SFltb_leb. Qed.

Lemma leb_total (a b : double) :
  not_nan a -> not_nan b -> (a <? b)%float = false -> (b <=? a)%float = true.
Proof.
  rewrite !not_nan_spec, ltb_spec, leb_spec. apply SFleb_total.
Qed.

Lemma leb_refl (a : double) : not_nan a -> (a <=? a)%float = true.
Proof.
  intros H. apply leb_total; [exact H | exact H |].
  rewrite ltb_spec. apply not_nan_spec in H.
  unfold SFltb. pose proof (SFeqb_refl H) as E. unfold SFeqb in E.
  destruct (SFcompare (Prim2SF a) (Prim2SF a)) as [[| |]|];
    congruence.
Qed.

Lemma abs_nonneg (a : double) :
  not_nan (Std.abs a) -> (0 <=? Std.abs a)%float = true.
Proof.
  unfold Std.abs. rewrite not_nan_spec, leb_spec, abs_spec. intros H.
  apply SFabs_nonneg. intros E. apply H. rewrite E. reflexivity.
Qed.

Lemma abs_nonpos (a : double) :
  (Std.abs a <=? 0)%float = true -> Std.abs a = 0%float.
Proof.
  unfold Std.abs. rewrite leb_spec, abs_spec. intros H.
  apply Prim2SF_inj. rewrite abs_spec. apply SFabs_nonpos. exact H.
Qed.

(** ** The maximum of a list of doubles *)

Lemma fold_max_bounds (vs : list double) :
  forall r0 : double,
    not_nan r0 -> Forall not_nan vs ->
    (fold_left Std.max vs r0 = r0 \/ In (fold_left Std.max vs r0) vs)
    /\ (r0 <=? fold_left Std.max vs r0)%float = true
    /\ Forall (fun v => (v <=? fold_left Std.max vs r0)%float = true) vs.
Proof.
  induction vs as [|v vs IH]; intros r0 H0 Hvs.
  - cbn. split; [left; reflexivity |]. split; [apply leb_refl, H0 | constructor].
  - inversion Hvs as [|v' vs' Hv Hvs']; subst.
    cbn [fold_left]. unfold Std.max at 2 4 6 8.
    destruct (r0 <? v)%float eqn:E.
    + destruct (IH v Hv Hvs') as [Hin [Hle Hall]].
      split; [|split].
      * right. destruct Hin as [-> | Hin]; [left; reflexivity | right; exact Hin].
      * eapply leb_trans; [apply ltb_leb, E | exact Hle].
      * constructor; assumption.
    + destruct (IH r0 H0 Hvs') as [Hin [Hle Hall]].
      split; [|split].
      * destruct Hin as [Hin | Hin]; [left; exact Hin | right; right; exact Hin].
      * exact Hle.
      * constructor; [|exact Hall].
        eapply leb_trans; [exact (leb_total H0 Hv E) | exact Hle].
Qed.

(** Line 445 folds [max] over absolute values from 0.0: the result is their
    maximum, provided none of them is NaN. *)
Lemma fold_max_abs (v : double) (vs : list double) :
  Forall not_nan (v :: vs) ->
  Forall (fun w => exists a, w = Std.abs a) (v :: vs) ->
  is_maximum (fold_left Std.max (v :: vs) 0%float) (v :: vs).
Proof.
  intros Hn Ha.
  destruct (@fold_max_bounds (v :: vs) 0%float eq_refl Hn) as [Hin [_ Hall]].
  split; [|exact Hall].
  destruct Hin as [Hz | Hin]; [|exact Hin].
  rewrite Hz in *. left.
  inversion Hall as [|v' vs' Hv _]; subst.
  inversion Ha as [|v' vs' [a ->] _]; subst.
  apply abs_nonpos. exact Hv.
Qed.

(** ** The run of [main] *)

Lemma stub_ok : engines_ok stub_fea0 stub.
Proof.
  intros k. split.
  - cbn. lia.
  - cbn. repeat constructor; unfold two_slots; cbn; lia.
Qed.

Lemma metric_first_five (o : oracle) (k : nat) :
  (k <= 5)%nat -> metric o k = 1%float.
Proof.
  intros H. unfold metric.
  destruct (Nat.leb_spec k 5) as [_|H']; [reflexivity | lia].
Qed.

Lemma metric_later (o : oracle) (k : nat) :
  (5 < k)%nat -> metric o k = fold_left Std.max (change_window o k) 0%float.
Proof.
  intros H. unfold metric.
  destruct (Nat.leb_spec k 5) as [H'|_]; [lia | reflexivity].
Qed.

Lemma exit_test_first_five
  (fea0 : list double) (o : oracle) (k : nat) (st : State) :
  reached fea0 o k st -> (k <= 5)%nat -> exit_test st = false.
Proof.
  intros R H. unfold exit_test.
  rewrite (at_difference R), metric_first_five by exact H. reflexivity.
Qed.

(** [main] runs through: it ends in the state [n] iterations leave, where
    [n] is the first iteration whose exit test holds, or the ceiling. *)
Lemma main_run (fea0 : list double) (o : oracle) :
  engines_ok fea0 o ->
  exists (n : nat) (st : State),
    main fea0 o = Some st
    /\ after fea0 o n = Some st
    /\ reached fea0 o n st
    /\ (1 <= n <= 500)%nat
    /\ (forall j, (1 <= j < n)%nat ->
          exists stj, after fea0 o j = Some stj /\ exit_test stj = false)
    /\ (exit_test st = true \/ n = 500%nat).
Proof.
  intros Hok.
  destruct (@while_loop_after fea0 o Hok (S (Z.to_nat max_iter)) 0 (init fea0))
    as [n [st [Hw [Ha [Hr [Hs [Hj He]]]]]]].
  - lia.
  - cbn. lia.
  - reflexivity.
  - exists n, st.
    refine (conj Hw (conj Ha (conj _ (conj _ (conj _ _))))).
    + apply after_unique; [exact Hok | lia | exact Ha].
    + lia.
    + intros j Hj'. apply Hj. lia.
    + destruct He as [[_ He]|He]; [left; exact He | right; exact He].
Qed.

(** The state a completed iteration starts from and the one it ends in. *)
Lemma after_step (fea0 : list double) (o : oracle) (k : nat) :
  engines_ok fea0 o -> (1 <= k <= 500)%nat ->
  exists prev st,
    after fea0 o (k - 1) = Some prev /\ reached fea0 o (k - 1) prev
    /\ after fea0 o k = Some st /\ reached fea0 o k st
    /\ iteration_end fea0 o k st.
Proof.
  intros Hok Hk.
  destruct (after_reached Hok (k - 1)) as [prev [Hp Rp]]; [lia |].
  destruct (after_reached Hok k) as [st [Hs Rs]]; [lia |].
  exists prev, st.
  refine (conj Hp (conj Rp (conj Hs (conj Rs _)))).
  apply (at_end Rs). lia.
Qed.

(** ** The trace of one iteration *)

Lemma calls_during_at (fea0 : list double) (o : oracle) (k : nat) :
  engines_ok fea0 o -> (1 <= k <= 500)%nat ->
  calls_during fea0 o k = Some (calls_at fea0 o k).
Proof.
  intros Hok Hk.
  destruct (after_step Hok Hk) as [prev [st [Hp [Rp [Hs [Rs _]]]]]].
  unfold calls_during. rewrite Hp, Hs. cbn [bind].
  rewrite (at_calls Rs), (at_calls Rp).
  replace (seq 1 k) with (seq 1 (k - 1) ++ [k])
    by (replace k with (S (k - 1)) at 3 by lia; rewrite seq_S; f_equal; f_equal; lia).
  rewrite flat_map_app. cbn [flat_map]. rewrite app_nil_r.
  rewrite skipn_app, skipn_all, Nat.sub_diag. reflexivity.
Qed.

Lemma in_calls_at (fea0 : list double) (o : oracle) (k : nat) (t : uint) (c : Call) :
  In (t, c) (calls_at fea0 o k) <-> t = Z.of_nat k /\ In c (call_list fea0 o k).
Proof.
  unfold calls_at. rewrite in_map_iff. split.
  - intros [c' [E H]]. injection E as <- <-. split; [reflexivity | exact H].
  - intros [-> H]. exists c. split; [reflexivity | exact H].
Qed.

Lemma in_call_list_discretise
  (fea0 : list double) (o : oracle) (k : nat) (b : bool) (n : Z) :
  In (boundary_discretise b n) (call_list fea0 o k) <->
  b = false /\ n = Z.of_nat (length (lambdas_at o (k - 1))).
Proof.
  split.
  - intros H. in_call_list H; try discriminate H.
    injection H as <- <-. split; reflexivity.
  - intros [-> ->]. unfold call_list. left. reflexivity.
Qed.

Lemma in_call_list_assemble
  (fea0 : list double) (o : oracle) (k : nat) (fr : list double) :
  In (fea_AssembleKWithAreaFractions fr) (call_list fea0 o k) <->
  fr = fractions_at fea0 o k.
Proof.
  split.
  - intros H. in_call_list H; try discriminate H.
    injection H as <-. reflexivity.
  - intros ->. unfold call_list. right. right. left. reflexivity.
Qed.

Lemma in_call_list_reinitialise (fea0 : list double) (o : oracle) (k : nat) :
  In level_set_reinitialise (call_list fea0 o k) <-> forced_at o k = true.
Proof.
  split.
  - intros H. destruct (forced_at o k) eqn:E; [reflexivity |]. exfalso.
    unfold call_list in H. rewrite E in H.
    in_call_list H; discriminate H.
  - intros H. unfold call_list. rewrite H, !in_app_iff.
    right. right. right. left. left. reflexivity.
Qed.

Lemma in_call_list_optimise
  (fea0 : list double) (o : oracle) (k : nat) (args : OptimiseArgs) :
  In (optimise_Solve args) (call_list fea0 o k) ->
  opt_points args = points_at o k
  /\ opt_boundary_area args = structure_area (o (Z.of_nat k))
  /\ opt_mesh_area args = mesh_area
  /\ opt_max_area args = max_area.
Proof.
  intros H. in_call_list H; try discriminate H.
  injection H as <-. cbn. repeat split.
Qed.

(** * The claims *)

(** ** C1: the relative-difference metric *)

Lemma change_window_abs (o : oracle) (k : nat) :
  Forall (fun w => exists a, w = Std.abs a) (change_window o k).
Proof.
  unfold change_window, relative_change.
  repeat constructor; eexists; reflexivity.
Qed.

(** C1 fails as stated: iteration 1 of the scripted run ends with the metric
    at 1.0, the value the variable is initialised with (line 271), not 0. *)
Lemma relative_difference_after_first_iteration :
  option_map relative_difference (after stub_fea0 stub 1) = Some 1%float
  /\ (1 =? 0)%float = false.
Proof.
  split.
  - vm_compute. reflexivity.
  - reflexivity.
Qed.

(** C1, as amended.  At the end of every completed iteration [k] the
    objective history holds the objectives of iterations 1 to [k].  For
    [k <= 5] the metric [relative_difference] still has its initial value
    1.0.  For [k > 5] it is [max] folded from 0.0 over
    |(objective_k - objective_m) / objective_k| for m = k-1, ..., k-5; when
    none of these five values is NaN, that is their maximum. *)
Theorem relative_difference_window
  (fea0 : list double) (o : oracle) (k : nat) :
  engines_ok fea0 o -> (1 <= k <= 500)%nat ->
  exists st,
    after fea0 o k = Some st
    /\ objective_values st = history o k
    /\ ((k <= 5)%nat -> relative_difference st = 1%float)
    /\ ((5 < k)%nat ->
        relative_difference st
        = fold_left Std.max (change_window o k) 0%float
        /\ (Forall not_nan (change_window o k) ->
            is_maximum (relative_difference st) (change_window o k))).
Proof.
  intros Hok Hk.
  destruct (after_step Hok Hk) as [_ [st [_ [_ [Hs [R _]]]]]].
  exists st. refine (conj Hs (conj (at_values R) (conj _ _))).
  - intros H. rewrite (at_difference R). apply metric_first_five, H.
  - intros H. rewrite (at_difference R), metric_later by exact H.
    split; [reflexivity |]. intros Hn.
    pose proof (change_window_abs o k) as Ha.
    unfold change_window in *. cbn [map] in *.
    apply fold_max_abs; assumption.
Qed.

Lemma relative_difference_window_witness :
  engines_ok stub_fea0 stub /\ (1 <= 7 <= 500)%nat
  /\ exists st,
      after stub_fea0 stub 7 = Some st
      /\ objective_values st = history stub 7
      /\ ((7 <= 5)%nat -> relative_difference st = 1%float)
      /\ ((5 < 7)%nat ->
          relative_difference st
          = fold_left Std.max (change_window stub 7) 0%float
          /\ (Forall not_nan (change_window stub 7) ->
              is_maximum (relative_difference st) (change_window stub 7))).
Proof.
  refine (conj stub_ok
            (conj _ (@relative_difference_window stub_fea0 stub 7 stub_ok _)));
    lia.
Defined.

(** ** C2: when the loop ends *)

(** C2.  [main] ends after [n] iterations, where [n] is the first
    iteration at whose end both [relative_difference <= 0.0005] and
    [area <= 1.001 * max_area] hold, or 500 when there is none before: the
    final variables are those [n] passes through the body leave, and the
    test of line 465 was false at the end of every earlier iteration. *)
Theorem loop_ends_at_first_exit (fea0 : list double) (o : oracle) :
  engines_ok fea0 o ->
  exists (n : nat) (st : State),
    main fea0 o = Some st
    /\ after fea0 o n = Some st
    /\ count_iter st = Z.of_nat n
    /\ (1 <= n <= 500)%nat
    /\ (forall j, (1 <= j < n)%nat ->
          exists stj,
            after fea0 o j = Some stj
            /\ (relative_difference stj <=? 0.0005)%float
               && (area stj <=? 1.001 * max_area)%float = false)
    /\ ((relative_difference st <=? 0.0005)%float
        && (area st <=? 1.001 * max_area)%float = true
        \/ n = 500%nat).
Proof.
  intros Hok.
  destruct (main_run Hok) as [n [st [Hm [Ha [R [Hn [Hj He]]]]]]].
  exists n, st.
  exact (conj Hm (conj Ha (conj (at_count R) (conj Hn (conj Hj He))))).
Qed.

Lemma loop_ends_at_first_exit_witness :
  engines_ok stub_fea0 stub
  /\ exists (n : nat) (st : State),
      main stub_fea0 stub = Some st
      /\ after stub_fea0 stub n = Some st
      /\ count_iter st = Z.of_nat n
      /\ (1 <= n <= 500)%nat
      /\ (forall j, (1 <= j < n)%nat ->
            exists stj,
              after stub_fea0 stub j = Some stj
              /\ (relative_difference stj <=? 0.0005)%float
                 && (area stj <=? 1.001 * max_area)%float = false)
      /\ ((relative_difference st <=? 0.0005)%float
          && (area st <=? 1.001 * max_area)%float = true
          \/ n = 500%nat).
Proof.
  exact (conj stub_ok (@loop_ends_at_first_exit stub_fea0 stub stub_ok)).
Defined.

(** The scripted run converges: it ends by the test of line 465, at the end
    of iteration 10. *)
Example stub_run_ends_at_10 :
  option_map count_iter (main stub_fea0 stub) = Some 10
  /\ option_map exit_test (main stub_fea0 stub) = Some true.
Proof. split; vm_compute; reflexivity. Qed.

Example restless_run_ends_at_500 :
  option_map count_iter (main [] restless) = Some 500
  /\ option_map exit_test (main [] restless) = Some false.
Proof. split; vm_compute; reflexivity. Qed.

(** ** C9: no exit during the first five iterations *)

(** C9.  At the end of each of the iterations 1 to 5 the metric is still
    1.0, so [relative_difference <= 0.0005] and with it the test of line 465
    are false whatever the objective and the area; [main] completes at
    least 6 iterations. *)
Theorem no_exit_in_first_five (fea0 : list double) (o : oracle) :
  engines_ok fea0 o ->
  (forall k, (1 <= k <= 5)%nat ->
     exists st,
       after fea0 o k = Some st
       /\ relative_difference st = 1%float
       /\ (relative_difference st <=? 0.0005)%float = false
       /\ exit_test st = false)
  /\ exists (n : nat) (st : State),
       main fea0 o = Some st /\ count_iter st = Z.of_nat n /\ (6 <= n)%nat.
Proof.
  intros Hok. split.
  - intros k Hk.
    destruct (@after_step fea0 o k Hok) as [_ [st [_ [_ [Hs [R _]]]]]]; [lia |].
    assert (Hd : relative_difference st = 1%float)
      by (rewrite (at_difference R); apply metric_first_five; lia).
    exists st. refine (conj Hs (conj Hd (conj _ _))).
    + rewrite Hd. reflexivity.
    + eapply exit_test_first_five; [exact R | lia].
  - destruct (main_run Hok) as [n [st [Hm [Ha [R [Hn [Hj He]]]]]]].
    exists n, st. refine (conj Hm (conj (at_count R) _)).
    destruct He as [He | ->]; [|lia].
    destruct (Nat.le_gt_cases n 5) as [H5 | H5]; [|lia].
    rewrite (exit_test_first_five R H5) in He. discriminate He.
Qed.

Lemma no_exit_in_first_five_witness :
  engines_ok stub_fea0 stub
  /\ (forall k, (1 <= k <= 5)%nat ->
        exists st,
          after stub_fea0 stub k = Some st
          /\ relative_difference st = 1%float
          /\ (relative_difference st <=? 0.0005)%float = false
          /\ exit_test st = false)
  /\ exists (n : nat) (st : State),
       main stub_fea0 stub = Some st
       /\ count_iter st = Z.of_nat n /\ (6 <= n)%nat.
Proof.
  exact (conj stub_ok (@no_exit_in_first_five stub_fea0 stub stub_ok)).
Defined.

(** ** C3: the reinitialisation scheduler *)

Lemma reinit_schedule_forced (b : bool) (n : double) :
  fst (reinit_schedule b n) = negb b && (n =? 1)%float.
Proof.
  unfold reinit_schedule. destruct b; cbn [negb andb]; [reflexivity |].
  destruct (n =? 1)%float; reflexivity.
Qed.

Lemma replay_from_one (script : list bool) :
  replay script 1%float = map negb script.
Proof.
  induction script as [|b script IH]; [reflexivity |].
  cbn [replay map]. rewrite reinit_schedule_one. cbn [fst snd].
  rewrite IH. reflexivity.
Qed.

Lemma replay_from_zero (script : list bool) (i : nat) :
  nth_error (replay script 0%float) i = Some true <->
  (1 <= i)%nat /\ nth_error script i = Some false.
Proof.
  destruct script as [|b script].
  - destruct i; cbn; split; try discriminate; intros [_ H]; discriminate H.
  - cbn [replay]. rewrite reinit_schedule_zero. cbn [fst snd].
    rewrite replay_from_one. destruct i as [|i]; cbn [nth_error].
    + split; [discriminate | intros [H _]; lia].
    + rewrite nth_error_map.
      destruct (nth_error script i) as [[|]|]; cbn; split;
        try discriminate; try (intros [_ H]; discriminate H);
        intros _; split; [lia | reflexivity].
Qed.

Lemma update_script_last (o : oracle) (k : nat) :
  (1 <= k)%nat ->
  nth_error (update_script o k) (k - 1)
  = Some (update_reinitialised (o (Z.of_nat k))).
Proof.
  intros H. unfold update_script.
  rewrite nth_error_map, (nth_error_nth' (seq 1 k) 0%nat)
    by (rewrite length_seq; lia).
  rewrite seq_nth by lia. cbn [option_map].
  replace (1 + (k - 1))%nat with k by lia. reflexivity.
Qed.

(** C3.  Replayed on any script of answers of [level_set.update], from any
    counter, the scheduler calls [level_set.reinitialise()] in exactly the
    iterations where the answer is [false] and the counter it tests is 1.
    From a zero counter that is every iteration but the first whose answer
    is [false]; on the script false, false, true, false it is iterations 2
    and 4 and no other.  The loop follows the replay: iteration [k] calls
    [level_set.reinitialise()] exactly when the replay of the answers of
    iterations 1 to [k], from zero, marks its last entry. *)
Theorem scheduler_replay :
  (forall (script : list bool) (n : double) (i : nat),
     nth_error (replay script n) i = Some true <->
     nth_error script i = Some false
     /\ exists c, nth_error (counters script n) i = Some c
                  /\ (c =? 1)%float = true)
  /\ (forall (b : bool) (script : list bool),
        replay (b :: script) 0%float = false :: map negb script)
  /\ replay [false; false; true; false] 0%float = [false; true; false; true]
  /\ (forall (fea0 : list double) (o : oracle) (k : nat),
        engines_ok fea0 o -> (1 <= k <= 500)%nat ->
        exists cs,
          calls_during fea0 o k = Some cs
          /\ (In (Z.of_nat k, level_set_reinitialise) cs <->
              nth_error (replay (update_script o k) 0%float) (k - 1)
              = Some true)).
Proof.
  split; [|split; [|split]].
  - induction script as [|b script IH]; intros n i.
    + destruct i; cbn; split.
      * discriminate.
      * intros [H _]. discriminate H.
      * discriminate.
      * intros [H _]. discriminate H.
    + destruct i as [|i].
      * cbn [replay counters nth_error]. rewrite reinit_schedule_forced. split.
        -- intros H. injection H as H. apply andb_true_iff in H.
           destruct H as [Hb Hn]. destruct b; [discriminate Hb |].
           split; [reflexivity |]. exists n. split; [reflexivity | exact Hn].
        -- intros [Hb [c [Hc Hn]]]. injection Hb as ->. injection Hc as <-.
           rewrite Hn. reflexivity.
      * cbn [replay counters nth_error]. apply IH.
  - intros b script. cbn [replay]. rewrite reinit_schedule_zero. cbn [fst snd].
    rewrite replay_from_one. reflexivity.
  - reflexivity.
  - intros fea0 o k Hok Hk. exists (calls_at fea0 o k).
    split; [exact (calls_during_at Hok Hk) |].
    rewrite in_calls_at, in_call_list_reinitialise, replay_from_zero.
    rewrite update_script_last by lia. unfold forced_at.
    rewrite andb_true_iff, negb_true_iff, Nat.leb_le. split.
    + intros [_ [H2 Hb]]. split; [lia | rewrite Hb; reflexivity].
    + intros [H1 Hb]. injection Hb as Hb.
      split; [reflexivity | split; [lia | exact Hb]].
Qed.

(** The scripted run, whose [level_set.update] answers [true] in iteration
    3 only, reinitialises in iteration 4 and not in iteration 3. *)
Example stub_run_follows_replay :
  replay (update_script stub 4) 0%float = [false; true; false; true]
  /\ option_map
       (existsb (fun c => match snd c with
                          | level_set_reinitialise => true
                          | _ => false
                          end)) (calls_during stub_fea0 stub 4) = Some true
  /\ option_map
       (existsb (fun c => match snd c with
                          | level_set_reinitialise => true
                          | _ => false
                          end)) (calls_during stub_fea0 stub 3) = Some false.
Proof. repeat split; vm_compute; reflexivity. Qed.

(** ** C10: the counter at the end of an iteration *)

(** C10.  At the end of every completed iteration [num_reinit] is 1; and
    iteration [k] calls [level_set.reinitialise()] exactly when [k >= 2] and
    [level_set.update] answered [false] in it. *)
Theorem num_reinit_is_one (fea0 : list double) (o : oracle) (k : nat) :
  engines_ok fea0 o -> (1 <= k <= 500)%nat ->
  exists st cs,
    after fea0 o k = Some st
    /\ calls_during fea0 o k = Some cs
    /\ num_reinit st = 1%float
    /\ (In (Z.of_nat k, level_set_reinitialise) cs <->
        (2 <= k)%nat /\ update_reinitialised (o (Z.of_nat k)) = false).
Proof.
  intros Hok Hk.
  destruct (after_step Hok Hk) as [_ [st [_ [_ [Hs [R _]]]]]].
  exists st, (calls_at fea0 o k).
  refine (conj Hs (conj (calls_during_at Hok Hk) (conj _ _))).
  - rewrite (at_reinit R). destruct k; [lia | reflexivity].
  - rewrite in_calls_at, in_call_list_reinitialise. unfold forced_at.
    rewrite andb_true_iff, negb_true_iff, Nat.leb_le. tauto.
Qed.

Lemma num_reinit_is_one_witness :
  engines_ok stub_fea0 stub /\ (1 <= 4 <= 500)%nat
  /\ exists st cs,
      after stub_fea0 stub 4 = Some st
      /\ calls_during stub_fea0 stub 4 = Some cs
      /\ num_reinit st = 1%float
      /\ (In (Z.of_nat 4, level_set_reinitialise) cs <->
          (2 <= 4)%nat /\ update_reinitialised (stub (Z.of_nat 4)) = false).
Proof.
  refine (conj stub_ok
            (conj _ (@num_reinit_is_one stub_fea0 stub 4 stub_ok _)));
    lia.
Defined.

(** In the scripted run [level_set.update] answers [true] in iteration 3
    only: the loop reinitialises in every iteration from 2 on but the 3rd. *)
Example stub_run_reinitialisations :
  option_map
    (fun st =>
       map fst
         (filter (fun c => match snd c with
                           | level_set_reinitialise => true
                           | _ => false
                           end) (calls st)))
    (main stub_fea0 stub)
  = Some [2; 4; 5; 6; 7; 8; 9; 10].
Proof. vm_compute. reflexivity. Qed.

(** ** C4: the area fractions given to the solver *)

Lemma clamp_area_max (f : double) : clamp_area f = Std.max f 1e-6%float.
Proof. reflexivity. Qed.

Lemma clamp_area_not_below (f : double) :
  (clamp_area f <? 1e-6)%float = false.
Proof.
  unfold clamp_area. destruct (f <? 1e-6)%float eqn:E; [reflexivity | exact E].
Qed.

(** C4.  In every completed iteration [k] the area fraction of element [i]
    of the FEA mesh is [max (f, 1e-6)], [f] being the area of element [i]
    of the level-set mesh; none is below 1e-6; and these are the area
    fractions the stiffness matrix is assembled from. *)
Theorem solver_area_fractions (fea0 : list double) (o : oracle) (k : nat) :
  engines_ok fea0 o -> (1 <= k <= 500)%nat ->
  exists st cs,
    after fea0 o k = Some st
    /\ calls_during fea0 o k = Some cs
    /\ length (solid_elements st) = length fea0
    /\ (forall i a,
          nth_error (solid_elements st) i = Some a ->
          exists f,
            nth_error (element_areas (o (Z.of_nat k))) i = Some f
            /\ a = Std.max f 1e-6%float
            /\ (a <? 1e-6)%float = false)
    /\ (forall fr,
          In (Z.of_nat k, fea_AssembleKWithAreaFractions fr) cs <->
          fr = solid_elements st).
Proof.
  intros Hok Hk.
  destruct (after_step Hok Hk) as [_ [st [_ [_ [Hs [R E]]]]]].
  exists st, (calls_at fea0 o k).
  refine (conj Hs (conj (calls_during_at Hok Hk)
                     (conj (at_elements R) (conj _ _)))).
  - intros i a Ha. rewrite (end_elements E) in Ha. unfold fractions_at in Ha.
    rewrite nth_error_map in Ha.
    destruct (nth_error (firstn (length fea0)
                           (element_areas (o (Z.of_nat k)))) i)
      as [f|] eqn:Ef; [|discriminate Ha].
    injection Ha as <-. exists f. split; [|split].
    + destruct (Nat.lt_ge_cases i (length fea0)) as [Hi | Hi].
      * rewrite nth_error_firstn in Ef.
        destruct (Nat.ltb_spec i (length fea0)); [exact Ef | lia].
      * rewrite nth_error_firstn in Ef.
        destruct (Nat.ltb_spec i (length fea0)); [lia | discriminate Ef].
    + apply clamp_area_max.
    + apply clamp_area_not_below.
  - intros fr. rewrite in_calls_at, in_call_list_assemble, (end_elements E).
    split; [intros [_ H]; exact H | intros H; split; [reflexivity | exact H]].
Qed.

Lemma solver_area_fractions_witness :
  engines_ok stub_fea0 stub /\ (1 <= 2 <= 500)%nat
  /\ exists st cs,
      after stub_fea0 stub 2 = Some st
      /\ calls_during stub_fea0 stub 2 = Some cs
      /\ length (solid_elements st) = length stub_fea0
      /\ (forall i a,
            nth_error (solid_elements st) i = Some a ->
            exists f,
              nth_error (element_areas (stub (Z.of_nat 2))) i = Some f
              /\ a = Std.max f 1e-6%float
              /\ (a <? 1e-6)%float = false)
      /\ (forall fr,
            In (Z.of_nat 2, fea_AssembleKWithAreaFractions fr) cs <->
            fr = solid_elements st).
Proof.
  refine (conj stub_ok
            (conj _ (@solver_area_fractions stub_fea0 stub 2 stub_ok _)));
    lia.
Defined.

(** ** C5: the constraint distance *)

(** C5 fails as stated: the constraint distance is not handed to the
    optimiser.  In iteration 1 of the scripted run it is
    6400 * 0.4 - 2500 = 60, and 60 is none of the numbers the optimiser is
    constructed and configured with. *)
Lemma constraint_distance_not_passed :
  option_map constraint_distances (after stub_fea0 stub 1) = Some [60%float]
  /\ option_map optimiser_inputs (calls_during stub_fea0 stub 1)
     = Some [0.5; 100; 100; 2500; 6400; 0.4; 0.15;
             1; 2; -3; -1; 3; 4; -7; -1]%float
  /\ existsb (PrimFloat.eqb 60)
       [0.5; 100; 100; 2500; 6400; 0.4; 0.15;
        1; 2; -3; -1; 3; 4; -7; -1]%float = false.
Proof.
  split; [|split].
  - vm_compute. reflexivity.
  - vm_compute. reflexivity.
  - vm_compute. reflexivity.
Qed.

(** C5, as amended.  In every completed iteration [k] the vector
    [constraint_distances] holds one entry,
    [mesh_area * max_area - boundary.area], with [boundary.area] as the
    geometry engine left it in iteration [k]; the optimiser is called, and
    every call of it is configured with that same area, [mesh_area] and
    [max_area]. *)
Theorem constraint_distance_fresh (fea0 : list double) (o : oracle) (k : nat) :
  engines_ok fea0 o -> (1 <= k <= 500)%nat ->
  exists st cs,
    after fea0 o k = Some st
    /\ calls_during fea0 o k = Some cs
    /\ boundary_area st = structure_area (o (Z.of_nat k))
    /\ constraint_distances st
       = [(mesh_area * max_area - boundary_area st)%float]
    /\ (exists args, In (Z.of_nat k, optimise_Solve args) cs)
    /\ (forall args,
          In (Z.of_nat k, optimise_Solve args) cs ->
          opt_boundary_area args = boundary_area st
          /\ opt_mesh_area args = mesh_area
          /\ opt_max_area args = max_area).
Proof.
  intros Hok Hk.
  destruct (after_step Hok Hk) as [_ [st [_ [_ [Hs [R E]]]]]].
  exists st, (calls_at fea0 o k).
  refine (conj Hs (conj (calls_during_at Hok Hk)
                     (conj (end_boundary_area E) (conj _ (conj _ _))))).
  - rewrite (end_distances E), (end_boundary_area E). reflexivity.
  - eexists. apply in_calls_at. split; [reflexivity |].
    unfold call_list. rewrite !in_app_iff. right. right. left. left.
    reflexivity.
  - intros args H. apply in_calls_at in H. destruct H as [_ H].
    apply in_call_list_optimise in H. destruct H as [_ [Ha [Hm Hx]]].
    rewrite (end_boundary_area E). repeat split; assumption.
Qed.

Lemma constraint_distance_fresh_witness :
  engines_ok stub_fea0 stub /\ (1 <= 2 <= 500)%nat
  /\ exists st cs,
      after stub_fea0 stub 2 = Some st
      /\ calls_during stub_fea0 stub 2 = Some cs
      /\ boundary_area st = structure_area (stub (Z.of_nat 2))
      /\ constraint_distances st
         = [(mesh_area * max_area - boundary_area st)%float]
      /\ (exists args, In (Z.of_nat 2, optimise_Solve args) cs)
      /\ (forall args,
            In (Z.of_nat 2, optimise_Solve args) cs ->
            opt_boundary_area args = boundary_area st
            /\ opt_mesh_area args = mesh_area
            /\ opt_max_area args = max_area).
Proof.
  refine (conj stub_ok
            (conj _ (@constraint_distance_fresh stub_fea0 stub 2 stub_ok _)));
    lia.
Defined.

(** ** C6: the sensitivity mapper *)

(** C6.  In every completed iteration [k], entered with an empty buffer, the
    mapper runs through all boundary points: it leaves in the buffer the
    value interpolated at each point, in order, and in each point, at its
    coordinate, the negated interpolated value as first sensitivity and -1
    as second; at the end of the iteration the buffer is empty. *)
Theorem mapper_sensitivities (fea0 : list double) (o : oracle) (k : nat) :
  engines_ok fea0 o -> (1 <= k <= 500)%nat ->
  exists st,
    after fea0 o k = Some st
    /\ assign_sensitivities
         (length (discretise_points (o (Z.of_nat k)))) 0 (o (Z.of_nat k))
         (discretise_points (o (Z.of_nat k)), [])
       = Some (boundary_points st,
               map (fun p => interpolate (o (Z.of_nat k))
                               (LSM.x (LSM.coord p)) (LSM.y (LSM.coord p)))
                 (discretise_points (o (Z.of_nat k))))
    /\ length (boundary_points st)
       = length (discretise_points (o (Z.of_nat k)))
    /\ (forall i p,
          nth_error (discretise_points (o (Z.of_nat k))) i = Some p ->
          exists p',
            nth_error (boundary_points st) i = Some p'
            /\ LSM.coord p' = LSM.coord p
            /\ nth_error (LSM.sensitivities p') 0
               = Some (- interpolate (o (Z.of_nat k))
                           (LSM.x (LSM.coord p)) (LSM.y (LSM.coord p)))%float
            /\ nth_error (LSM.sensitivities p') 1 = Some (-1)%float)
    /\ boundary_sensitivities st = [].
Proof.
  intros Hok Hk.
  destruct (after_step Hok Hk) as [_ [st [_ [_ [Hs [R E]]]]]].
  destruct (Hok (Z.of_nat k)) as [_ Hp].
  exists st.
  refine (conj Hs (conj _ (conj _ (conj _ (at_buffer R))))).
  - rewrite (end_points E). apply assign_sensitivities_spec. exact Hp.
  - rewrite (end_points E). unfold points_at. apply length_map.
  - intros i p Hi. exists (mapped_point (o (Z.of_nat k)) p).
    rewrite (end_points E). unfold points_at.
    rewrite nth_error_map, Hi. repeat split.
Qed.

Lemma mapper_sensitivities_witness :
  engines_ok stub_fea0 stub /\ (1 <= 2 <= 500)%nat
  /\ exists st,
      after stub_fea0 stub 2 = Some st
      /\ assign_sensitivities
           (length (discretise_points (stub (Z.of_nat 2)))) 0
           (stub (Z.of_nat 2)) (discretise_points (stub (Z.of_nat 2)), [])
         = Some (boundary_points st,
                 map (fun p => interpolate (stub (Z.of_nat 2))
                                 (LSM.x (LSM.coord p)) (LSM.y (LSM.coord p)))
                   (discretise_points (stub (Z.of_nat 2))))
      /\ length (boundary_points st)
         = length (discretise_points (stub (Z.of_nat 2)))
      /\ (forall i p,
            nth_error (discretise_points (stub (Z.of_nat 2))) i = Some p ->
            exists p',
              nth_error (boundary_points st) i = Some p'
              /\ LSM.coord p' = LSM.coord p
              /\ nth_error (LSM.sensitivities p') 0
                 = Some (- interpolate (stub (Z.of_nat 2))
                             (LSM.x (LSM.coord p))
                             (LSM.y (LSM.coord p)))%float
              /\ nth_error (LSM.sensitivities p') 1 = Some (-1)%float)
      /\ boundary_sensitivities st = [].
Proof.
  refine (conj stub_ok
            (conj _ (@mapper_sensitivities stub_fea0 stub 2 stub_ok _)));
    lia.
Defined.

(** ** C7: the argument of the boundary discretisation *)

(** C7 fails as stated: the first call of iteration 1 of the scripted run
    is [boundary.discretise(false, 2)], not with 1. *)
Lemma discretise_called_with_two :
  option_map (@hd_error _) (calls_during stub_fea0 stub 1)
  = Some (Some (1, boundary_discretise false 2))
  /\ (2 =? 1) = false.
Proof.
  split.
  - vm_compute. reflexivity.
  - reflexivity.
Qed.

(** C7, as amended.  Every completed iteration [k] starts with its one call
    of [boundary.discretise], with [false] and the length of [lambdas]:
    that is 2 in iteration 1, and later the length of the vector
    [optimise.get_lambdas] left in iteration [k - 1]. *)
Theorem discretise_argument (fea0 : list double) (o : oracle) (k : nat) :
  engines_ok fea0 o -> (1 <= k <= 500)%nat ->
  exists prev rest,
    after fea0 o (k - 1) = Some prev
    /\ calls_during fea0 o k
       = Some ((Z.of_nat k,
                boundary_discretise false (Z.of_nat (length (lambdas prev))))
               :: rest)
    /\ (forall b n, ~ In (Z.of_nat k, boundary_discretise b n) rest)
    /\ (k = 1%nat -> Z.of_nat (length (lambdas prev)) = 2)
    /\ ((2 <= k)%nat ->
        lambdas prev = got_lambdas (o (Z.of_nat (k - 1)))).
Proof.
  intros Hok Hk.
  destruct (after_step Hok Hk) as [prev [_ [Hp [Rp _]]]].
  exists prev, (map (pair (Z.of_nat k)) (tl (call_list fea0 o k))).
  refine (conj Hp (conj _ (conj _ (conj _ _)))).
  - rewrite (calls_during_at Hok Hk), (at_lambdas Rp). reflexivity.
  - intros b n H. apply in_map_iff in H. destruct H as [c [Ec H]].
    injection Ec as ->.
    unfold call_list in H. cbn [tl app] in H.
    in_cases H; discriminate H.
  - intros ->. rewrite (at_lambdas Rp). reflexivity.
  - intros H. rewrite (at_lambdas Rp). unfold lambdas_at.
    destruct (k - 1)%nat eqn:E; [lia | reflexivity].
Qed.

Lemma discretise_argument_witness :
  engines_ok stub_fea0 stub /\ (1 <= 2 <= 500)%nat
  /\ exists prev rest,
      after stub_fea0 stub (2 - 1) = Some prev
      /\ calls_during stub_fea0 stub 2
         = Some ((Z.of_nat 2,
                  boundary_discretise false (Z.of_nat (length (lambdas prev))))
                 :: rest)
      /\ (forall b n, ~ In (Z.of_nat 2, boundary_discretise b n) rest)
      /\ (2%nat = 1%nat -> Z.of_nat (length (lambdas prev)) = 2)
      /\ ((2 <= 2)%nat ->
          lambdas prev = got_lambdas (stub (Z.of_nat (2 - 1)))).
Proof.
  refine (conj stub_ok
            (conj _ (@discretise_argument stub_fea0 stub 2 stub_ok _)));
    lia.
Defined.

(** ** C8: the history file *)

Lemma seq_last (k : nat) : (1 <= k)%nat -> seq 1 k = seq 1 (k - 1) ++ [k].
Proof.
  intros H. replace k with (S (k - 1)) at 1 by lia.
  rewrite seq_S. f_equal. f_equal. lia.
Qed.

Lemma record_at_state
  (fea0 : list double) (o : oracle) (k : nat) (st : State) :
  (1 <= k)%nat -> reached fea0 o k st ->
  record_at o k
  = [FUint (count_iter st); FDouble (objective (o (Z.of_nat k)));
     FDouble (von_mises_max (o (Z.of_nat k))); FDouble (area st);
     FDouble (relative_difference st)].
Proof.
  intros Hk R. pose proof (at_end R Hk) as E.
  rewrite (at_count R), (at_difference R), (end_area E). reflexivity.
Qed.

(** C8.  Every completed iteration [k] appends one line to the history
    file: the iteration, the objective, the maximal stress, the area
    fraction and the relative difference.  When [main] ends after [n]
    iterations the file holds, below its header, [n] lines, and line [j]
    is the record of iteration [j]. *)
Theorem history_file_records (fea0 : list double) (o : oracle) :
  engines_ok fea0 o ->
  (forall k, (1 <= k <= 500)%nat ->
     exists prev st,
       after fea0 o (k - 1) = Some prev
       /\ after fea0 o k = Some st
       /\ count_iter st = Z.of_nat k
       /\ txt_file st
          = txt_file prev
            ++ [[FUint (count_iter st); FDouble (objective (o (Z.of_nat k)));
                 FDouble (von_mises_max (o (Z.of_nat k))); FDouble (area st);
                 FDouble (relative_difference st)]])
  /\ exists (n : nat) (st : State),
       main fea0 o = Some st
       /\ count_iter st = Z.of_nat n
       /\ txt_file st = history_header :: records (txt_file st)
       /\ length (records (txt_file st)) = n
       /\ (forall j, (1 <= j <= n)%nat ->
             exists stj,
               after fea0 o j = Some stj
               /\ nth_error (records (txt_file st)) (j - 1)
                  = Some [FUint (Z.of_nat j);
                          FDouble (objective (o (Z.of_nat j)));
                          FDouble (von_mises_max (o (Z.of_nat j)));
                          FDouble (area stj);
                          FDouble (relative_difference stj)]).
Proof.
  intros Hok. split.
  - intros k Hk.
    destruct (after_step Hok Hk) as [prev [st [Hp [Rp [Hs [Rs E]]]]]].
    exists prev, st.
    refine (conj Hp (conj Hs (conj (at_count Rs) _))).
    rewrite (at_file Rs), (at_file Rp), seq_last, map_app by lia.
    cbn [map app]. rewrite (record_at_state (proj1 Hk) Rs). reflexivity.
  - destruct (main_run Hok) as [n [st [Hm [Ha [R [Hn _]]]]]].
    exists n, st.
    refine (conj Hm (conj (at_count R) _)).
    rewrite (at_file R). unfold records. cbn [tl].
    refine (conj eq_refl (conj _ _)).
    + rewrite length_map, length_seq. reflexivity.
    + intros j Hj.
      destruct (@after_step fea0 o j Hok) as [_ [stj [_ [_ [Hs [Rs _]]]]]];
        [lia |].
      exists stj. split; [exact Hs |].
      rewrite nth_error_map.
      rewrite (nth_error_nth' (seq 1 n) 0%nat)
        by (rewrite length_seq; lia).
      rewrite seq_nth by lia. cbn [option_map].
      replace (1 + (j - 1))%nat with j by lia.
      rewrite (record_at_state (proj1 Hj) Rs), (at_count Rs). reflexivity.
Qed.

Lemma history_file_records_witness :
  engines_ok stub_fea0 stub
  /\ (forall k, (1 <= k <= 500)%nat ->
        exists prev st,
          after stub_fea0 stub (k - 1) = Some prev
          /\ after stub_fea0 stub k = Some st
          /\ count_iter st = Z.of_nat k
          /\ txt_file st
             = txt_file prev
               ++ [[FUint (count_iter st);
                    FDouble (objective (stub (Z.of_nat k)));
                    FDouble (von_mises_max (stub (Z.of_nat k)));
                    FDouble (area st);
                    FDouble (relative_difference st)]])
  /\ exists (n : nat) (st : State),
       main stub_fea0 stub = Some st
       /\ count_iter st = Z.of_nat n
       /\ txt_file st = history_header :: records (txt_file st)
       /\ length (records (txt_file st)) = n
       /\ (forall j, (1 <= j <= n)%nat ->
             exists stj,
               after stub_fea0 stub j = Some stj
               /\ nth_error (records (txt_file st)) (j - 1)
                  = Some [FUint (Z.of_nat j);
                          FDouble (objective (stub (Z.of_nat j)));
                          FDouble (von_mises_max (stub (Z.of_nat j)));
                          FDouble (area stj);
                          FDouble (relative_difference stj)]).
Proof.
  exact (conj stub_ok (@history_file_records stub_fea0 stub stub_ok)).
Defined.

(** The history file of the scripted run: the iteration column. *)
Example stub_run_history_iterations :
  option_map
    (fun st => map (@hd_error _) (records (txt_file st)))
    (main stub_fea0 stub)
  = Some (map (fun k => Some (FUint k)) [1; 2; 3; 4; 5; 6; 7; 8; 9; 10]).
Proof. vm_compute. reflexivity. Qed.

(** * Further properties of the loop *)

(** ** The metric is a number *)

Lemma leb_zero_not_nan (a : double) : (0 <=? a)%float = true -> not_nan a.
Proof.
  rewrite leb_spec, not_nan_spec. intros H E. rewrite E in H.
  discriminate H.
Qed.

Lemma is_nan_spec (a : double) : is_nan a = true -> Prim2SF a = S754_nan.
Proof.
  unfold is_nan. rewrite eqb_spec. intros H.
  destruct (Prim2SF a) eqn:E; try reflexivity;
    rewrite SFeqb_refl in H by discriminate; discriminate H.
Qed.

Lemma max_skips_nan (r v : double) : is_nan v = true -> Std.max r v = r.
Proof.
  intros H. apply is_nan_spec in H. unfold Std.max. rewrite ltb_spec, H.
  unfold SFltb, SFcompare. destruct (Prim2SF r); reflexivity.
Qed.

Lemma fold_max_skips_nan (vs : list double) :
  forall r0 : double,
    fold_left Std.max vs r0
    = fold_left Std.max (filter (fun v => negb (is_nan v)) vs) r0.
Proof.
  induction vs as [|v vs IH]; intros r0; [reflexivity |].
  cbn [fold_left filter]. destruct (is_nan v) eqn:E; cbn [negb].
  - rewrite max_skips_nan by exact E. apply IH.
  - cbn [fold_left]. apply IH.
Qed.

Lemma fold_max_nonneg (vs : list double) :
  forall r0 : double,
    (0 <=? r0)%float = true ->
    (0 <=? fold_left Std.max vs r0)%float = true.
Proof.
  induction vs as [|v vs IH]; intros r0 H0; [exact H0 |].
  cbn [fold_left]. apply IH. unfold Std.max.
  destruct (r0 <? v)%float eqn:E; [|exact H0].
  eapply leb_trans; [exact H0 | apply ltb_leb, E].
Qed.

Lemma relative_change_nan (k m : double) :
  is_nan k = true -> is_nan (relative_change k m) = true.
Proof.
  intros H. apply is_nan_spec in H.
  assert (E : Prim2SF (relative_change k m) = S754_nan).
  { unfold relative_change, Std.abs.
    rewrite abs_spec, div_spec, sub_spec, H. reflexivity. }
  unfold is_nan. rewrite eqb_spec, E. reflexivity.
Qed.

(** X1.  At the end of every completed iteration [relative_difference] is
    a number and not negative, whatever the engines answer: a NaN among the
    relative changes never reaches it. *)
Theorem metric_is_a_number (fea0 : list double) (o : oracle) (k : nat) :
  engines_ok fea0 o -> (1 <= k <= 500)%nat ->
  exists st,
    after fea0 o k = Some st
    /\ (0 <=? relative_difference st)%float = true
    /\ is_nan (relative_difference st) = false.
Proof.
  intros Hok Hk.
  destruct (after_step Hok Hk) as [_ [st [_ [_ [Hs [R _]]]]]].
  assert (H : (0 <=? relative_difference st)%float = true).
  { rewrite (at_difference R). unfold metric.
    destruct (k <=? 5)%nat; [reflexivity |].
    apply fold_max_nonneg. reflexivity. }
  exists st. refine (conj Hs (conj H _)).
  apply leb_zero_not_nan, H.
Qed.

Lemma stub_nan_ok : engines_ok [] stub_nan.
Proof. intros k. split; cbn; [lia | constructor]. Qed.

Lemma metric_is_a_number_witness :
  engines_ok [] stub_nan /\ (1 <= 6 <= 500)%nat
  /\ exists st,
      after [] stub_nan 6 = Some st
      /\ (0 <=? relative_difference st)%float = true
      /\ is_nan (relative_difference st) = false.
Proof.
  refine (conj stub_nan_ok
            (conj _ (@metric_is_a_number [] stub_nan 6 stub_nan_ok _)));
    lia.
Defined.

(** ** A NaN in the objective *)

(** X2.  From iteration 6 on the metric is the fold of [max] over those
    relative changes of the window that are numbers: a NaN change does not
    count.  When the objective of iteration [k] itself is NaN, all five
    changes are NaN, the metric is 0.0, and the test of line 465 holds as
    soon as the area does. *)
Theorem nan_objective_reads_as_converged
  (fea0 : list double) (o : oracle) (k : nat) :
  engines_ok fea0 o -> (6 <= k <= 500)%nat ->
  exists st,
    after fea0 o k = Some st
    /\ relative_difference st
       = fold_left Std.max
           (filter (fun v => negb (is_nan v)) (change_window o k)) 0%float
    /\ (is_nan (objective (o (Z.of_nat k))) = true ->
        relative_difference st = 0%float
        /\ exit_test st = (area st <=? 1.001 * max_area)%float).
Proof.
  intros Hok Hk.
  destruct (@after_step fea0 o k Hok) as [_ [st [_ [_ [Hs [R _]]]]]]; [lia |].
  assert (Hd : relative_difference st
               = fold_left Std.max
                   (filter (fun v => negb (is_nan v)) (change_window o k))
                   0%float).
  { rewrite (at_difference R), metric_later by lia.
    apply fold_max_skips_nan. }
  exists st. refine (conj Hs (conj Hd _)).
  intros Hn.
  assert (Hz : relative_difference st = 0%float).
  { rewrite Hd. unfold change_window, objective_at. cbn [map filter].
    rewrite !relative_change_nan by exact Hn. reflexivity. }
  split; [exact Hz |].
  unfold exit_test. rewrite Hz. reflexivity.
Qed.

Lemma nan_objective_reads_as_converged_witness :
  engines_ok [] stub_nan /\ (6 <= 6 <= 500)%nat
  /\ exists st,
      after [] stub_nan 6 = Some st
      /\ relative_difference st
         = fold_left Std.max
             (filter (fun v => negb (is_nan v)) (change_window stub_nan 6))
             0%float
      /\ (is_nan (objective (stub_nan (Z.of_nat 6))) = true ->
          relative_difference st = 0%float
          /\ exit_test st = (area st <=? 1.001 * max_area)%float).
Proof.
  refine (conj stub_nan_ok
            (conj _ (@nan_objective_reads_as_converged [] stub_nan 6
                       stub_nan_ok _)));
    lia.
Defined.

(** With a solver that only ever answers NaN the loop stops at iteration 6,
    its exit test satisfied. *)
Example stub_nan_run_ends_at_6 :
  option_map count_iter (main [] stub_nan) = Some 6
  /\ option_map exit_test (main [] stub_nan) = Some true.
Proof. split; vm_compute; reflexivity. Qed.

(** ** What decides the end of the loop *)

Lemma exit_test_at (fea0 : list double) (o : oracle) (k : nat) (st : State) :
  (1 <= k)%nat -> reached fea0 o k st -> exit_test st = exit_at o k.
Proof.
  intros Hk R. unfold exit_test, exit_at.
  rewrite (at_difference R), (end_area (at_end R Hk)). reflexivity.
Qed.

Lemma metric_ext (o o' : oracle) (k : nat) :
  (forall j : Z, objective (o j) = objective (o' j)) ->
  metric o k = metric o' k.
Proof.
  intros H. unfold metric, change_window, objective_at. cbn [map].
  rewrite !H. reflexivity.
Qed.

Lemma exit_at_ext (o o' : oracle) (k : nat) :
  (forall j : Z,
     objective (o j) = objective (o' j)
     /\ structure_area (o j) = structure_area (o' j)) ->
  exit_at o k = exit_at o' k.
Proof.
  intros H. unfold exit_at, area_at.
  rewrite (@metric_ext o o' k) by (intros j; apply H).
  rewrite (proj2 (H (Z.of_nat k))). reflexivity.
Qed.

(** The number of iterations of [main], from the answers of the engines. *)
Lemma main_run_at (fea0 : list double) (o : oracle) :
  engines_ok fea0 o ->
  exists (n : nat) (st : State),
    main fea0 o = Some st
    /\ reached fea0 o n st
    /\ (1 <= n <= 500)%nat
    /\ (forall j, (1 <= j < n)%nat -> exit_at o j = false)
    /\ (exit_at o n = true \/ n = 500%nat).
Proof.
  intros Hok.
  destruct (main_run Hok) as [n [st [Hm [Ha [R [Hn [Hj He]]]]]]].
  exists n, st. refine (conj Hm (conj R (conj Hn (conj _ _)))).
  - intros j Hj'. destruct (Hj j Hj') as [stj [Hs Hx]].
    rewrite <- Hx. symmetry. apply (@exit_test_at fea0 o j stj); [lia |].
    apply after_unique; [exact Hok | lia | exact Hs].
  - destruct He as [He | He]; [left | right; exact He].
    rewrite <- He. symmetry. apply (@exit_test_at fea0 o n st); [lia | exact R].
Qed.

(** X3.  How many iterations [main] runs is decided by the objectives and
    the structural areas alone: two runs whose engines agree on these end
    after the same number of iterations, whatever the time steps, boundary
    points, multipliers, element areas and answers of [level_set.update];
    if they also agree on the maximal stress, they write the same history
    file. *)
Theorem end_decided_by_objective_and_area
  (fea0 fea0' : list double) (o o' : oracle) :
  engines_ok fea0 o -> engines_ok fea0' o' ->
  (forall j : Z,
     objective (o j) = objective (o' j)
     /\ structure_area (o j) = structure_area (o' j)) ->
  exists st st',
    main fea0 o = Some st /\ main fea0' o' = Some st'
    /\ count_iter st = count_iter st'
    /\ relative_difference st = relative_difference st'
    /\ area st = area st'
    /\ ((forall j : Z, von_mises_max (o j) = von_mises_max (o' j)) ->
        txt_file st = txt_file st').
Proof.
  intros Hok Hok' Heq.
  destruct (main_run_at Hok) as [n [st [Hm [R [Hn [Hj He]]]]]].
  destruct (main_run_at Hok') as [n' [st' [Hm' [R' [Hn' [Hj' He']]]]]].
  assert (Hx : forall j, exit_at o j = exit_at o' j)
    by (intros j; apply exit_at_ext, Heq).
  assert (E : n = n').
  { destruct (Nat.lt_trichotomy n n') as [Hlt | [E | Hgt]]; [|exact E|].
    - destruct He as [He | He]; [|lia].
      rewrite Hx, Hj' in He by lia. discriminate He.
    - destruct He' as [He' | He']; [|lia].
      rewrite <- Hx, Hj in He' by lia. discriminate He'. }
  subst n'.
  exists st, st'.
  refine (conj Hm (conj Hm' (conj _ (conj _ (conj _ _))))).
  - rewrite (at_count R), (at_count R'). reflexivity.
  - rewrite (at_difference R), (at_difference R').
    apply metric_ext. intros j. apply Heq.
  - rewrite (end_area (at_end R (proj1 Hn))),
      (end_area (at_end R' (proj1 Hn))).
    unfold area_at. rewrite (proj2 (Heq (Z.of_nat n))). reflexivity.
  - intros Hv. rewrite (at_file R), (at_file R'). f_equal.
    apply map_ext. intros j. unfold record_at, history_record, area_at.
    rewrite (@metric_ext o o' j) by (intros i; apply Heq).
    rewrite (proj1 (Heq (Z.of_nat j))), (proj2 (Heq (Z.of_nat j))), Hv.
    reflexivity.
Qed.

Lemma stub_other_ok : engines_ok [1%float] stub_other.
Proof.
  intros k. split.
  - cbn. lia.
  - cbn. repeat constructor; unfold two_slots; cbn; lia.
Qed.

Lemma end_decided_by_objective_and_area_witness :
  engines_ok stub_fea0 stub /\ engines_ok [1%float] stub_other
  /\ (forall j : Z,
        objective (stub j) = objective (stub_other j)
        /\ structure_area (stub j) = structure_area (stub_other j))
  /\ exists st st',
      main stub_fea0 stub = Some st /\ main [1%float] stub_other = Some st'
      /\ count_iter st = count_iter st'
      /\ relative_difference st = relative_difference st'
      /\ area st = area st'
      /\ ((forall j : Z,
             von_mises_max (stub j) = von_mises_max (stub_other j)) ->
          txt_file st = txt_file st').
Proof.
  assert (H : forall j : Z,
             objective (stub j) = objective (stub_other j)
             /\ structure_area (stub j) = structure_area (stub_other j))
    by (intros j; split; reflexivity).
  exact (conj stub_ok
           (conj stub_other_ok
              (conj H (@end_decided_by_objective_and_area
                         stub_fea0 [1%float] stub stub_other
                         stub_ok stub_other_ok H)))).
Defined.

(** ** What is written stays *)

Lemma seq_split (k k' : nat) :
  (k <= k')%nat -> seq 1 k' = seq 1 k ++ seq (1 + k) (k' - k).
Proof.
  intros H. replace k' with (k + (k' - k))%nat at 1 by lia.
  apply seq_app.
Qed.

(** X4.  The objective history, the history file and the trace only grow:
    what they hold at the end of iteration [k] is, at the end of any later
    iteration [k'], still there, in front of one objective and one line per
    iteration in between and of the calls of those iterations; and the
    objective history has one entry per completed iteration. *)
Theorem histories_only_grow
  (fea0 : list double) (o : oracle) (k k' : nat) :
  engines_ok fea0 o -> (k <= k' <= 500)%nat ->
  exists st st' values lines cs,
    after fea0 o k = Some st /\ after fea0 o k' = Some st'
    /\ length (objective_values st) = k
    /\ objective_values st' = objective_values st ++ values
    /\ length values = (k' - k)%nat
    /\ txt_file st' = txt_file st ++ lines
    /\ length lines = (k' - k)%nat
    /\ calls st' = calls st ++ cs
    /\ (forall c, In c cs -> Z.of_nat k < fst c <= Z.of_nat k').
Proof.
  intros Hok Hk.
  destruct (after_reached Hok k) as [st [Hs R]]; [lia |].
  destruct (after_reached Hok k') as [st' [Hs' R']]; [lia |].
  exists st, st', (map (objective_at o) (seq (1 + k) (k' - k))),
    (map (record_at o) (seq (1 + k) (k' - k))),
    (flat_map (calls_at fea0 o) (seq (1 + k) (k' - k))).
  refine (conj Hs (conj Hs' (conj _ (conj _ (conj _ (conj _ (conj _
            (conj _ _)))))))).
  - rewrite (at_values R). unfold history. rewrite length_map, length_seq.
    reflexivity.
  - rewrite (at_values R), (at_values R'). unfold history.
    rewrite (@seq_split k k') by lia. apply map_app.
  - rewrite length_map, length_seq. reflexivity.
  - rewrite (at_file R), (at_file R'), (@seq_split k k') by lia.
    rewrite map_app. reflexivity.
  - rewrite length_map, length_seq. reflexivity.
  - rewrite (at_calls R), (at_calls R'), (@seq_split k k') by lia.
    apply flat_map_app.
  - intros [t c] H. apply in_flat_map in H. destruct H as [j [Hj H]].
    apply in_seq in Hj. apply in_calls_at in H. destruct H as [-> _].
    cbn [fst]. lia.
Qed.

Lemma histories_only_grow_witness :
  engines_ok stub_fea0 stub /\ (2 <= 7 <= 500)%nat
  /\ exists st st' values lines cs,
      after stub_fea0 stub 2 = Some st /\ after stub_fea0 stub 7 = Some st'
      /\ length (objective_values st) = 2%nat
      /\ objective_values st' = objective_values st ++ values
      /\ length values = (7 - 2)%nat
      /\ txt_file st' = txt_file st ++ lines
      /\ length lines = (7 - 2)%nat
      /\ calls st' = calls st ++ cs
      /\ (forall c, In c cs -> Z.of_nat 2 < fst c <= Z.of_nat 7).
Proof.
  refine (conj stub_ok
            (conj _ (@histories_only_grow stub_fea0 stub 2 7 stub_ok _)));
    lia.
Defined.

(** ** The mapper and the buffer it is entered with *)

Lemma skipn_nth_error {A} (l : list A) :
  forall (n : nat) (a : A),
    nth_error l n = Some a -> skipn n l = a :: skipn (S n) l.
Proof.
  induction l as [|h t IH]; intros n a H.
  - destruct n; discriminate H.
  - destruct n as [|n].
    + injection H as ->. reflexivity.
    + cbn [skipn]. apply IH. exact H.
Qed.

Lemma assign_sensitivities_from (e : Engines) (rest : list LSM.BoundaryPoint) :
  forall done buf,
    (length done <= length buf)%nat ->
    Forall two_slots rest ->
    assign_sensitivities (length rest) (length done) e (done ++ rest, buf)
    = Some (done
            ++ map point_with
                 (combine rest
                    (skipn (length done)
                       (buf ++ map (interpolate_at e) rest))),
            buf ++ map (interpolate_at e) rest).
Proof.
  induction rest as [|p rest IH]; intros done buf Hb Hs.
  - cbn. rewrite !app_nil_r. reflexivity.
  - inversion Hs as [|p' rest' Hp Hrest]; subst.
    cbn [length assign_sensitivities assign_point_sensitivities].
    rewrite nth_error_middle. cbn [bind].
    unfold ComputeBoundarySensitivities. cbn [nth_error bind].
    fold (interpolate_at e p).
    destruct (nth_error (buf ++ [interpolate_at e p]) (length done))
      as [v|] eqn:Ev.
    2:{ apply nth_error_None in Ev. rewrite length_app in Ev.
        cbn in Ev. lia. }
    cbn [bind].
    unfold two_slots in Hp.
    destruct (LSM.sensitivities p) as [|s0 [|s1 ss]] eqn:Es;
      [cbn in Hp; lia | cbn in Hp; lia |].
    cbn [assign bind].
    rewrite assign_middle. cbn [bind].
    assert (Hfull : nth_error (buf ++ map (interpolate_at e) (p :: rest))
                      (length done) = Some v).
    { cbn [map].
      replace (buf ++ interpolate_at e p :: map (interpolate_at e) rest)
        with ((buf ++ [interpolate_at e p]) ++ map (interpolate_at e) rest)
        by (rewrite <- app_assoc; reflexivity).
      rewrite nth_error_app1; [exact Ev |].
      rewrite length_app. cbn. lia. }
    rewrite (skipn_nth_error _ _ Hfull). cbn [combine map].
    replace (S (length done))
      with (length (done ++ [point_with (p, v)]))
      by (rewrite length_app; cbn; lia).
    replace (done ++ {| LSM.coord := LSM.coord p;
                        LSM.sensitivities :=
                          (- v)%float :: (-1)%float :: ss |} :: rest)
      with ((done ++ [point_with (p, v)]) ++ rest)
      by (rewrite <- app_assoc; unfold point_with; cbn [fst snd];
          rewrite Es; reflexivity).
    rewrite IH.
    + rewrite <- !app_assoc. reflexivity.
    + rewrite !length_app. cbn. lia.
    + exact Hrest.
Qed.

Lemma assign_sensitivities_fails (e : Engines) (rest : list LSM.BoundaryPoint) :
  forall done buf,
    (length done <= length buf)%nat ->
    ~ Forall two_slots rest ->
    assign_sensitivities (length rest) (length done) e (done ++ rest, buf)
    = None.
Proof.
  induction rest as [|p rest IH]; intros done buf Hb Hs.
  - exfalso. apply Hs. constructor.
  - cbn [length assign_sensitivities assign_point_sensitivities].
    rewrite nth_error_middle. cbn [bind].
    unfold ComputeBoundarySensitivities. cbn [nth_error bind].
    destruct (nth_error (buf ++ [interpolate e (LSM.x (LSM.coord p))
                                   (LSM.y (LSM.coord p))]) (length done))
      as [v|]; [|reflexivity].
    cbn [bind].
    destruct (LSM.sensitivities p) as [|s0 [|s1 ss]] eqn:Es;
      [reflexivity | reflexivity |].
    cbn [assign bind].
    rewrite assign_middle. cbn [bind].
    replace (S (length done))
      with (length (done ++ [point_with (p, v)]))
      by (rewrite length_app; cbn; lia).
    replace (done ++ {| LSM.coord := LSM.coord p;
                        LSM.sensitivities :=
                          (- v)%float :: (-1)%float :: ss |} :: rest)
      with ((done ++ [point_with (p, v)]) ++ rest)
      by (rewrite <- app_assoc; unfold point_with; cbn [fst snd];
          rewrite Es; reflexivity).
    apply IH.
    + rewrite !length_app. cbn. lia.
    + intros Hrest. apply Hs. constructor; [|exact Hrest].
      unfold two_slots. rewrite Es. cbn. lia.
Qed.

Lemma combine_front {A B} (l : list A) :
  forall (l1 l2 : list B),
    (length l <= length l1)%nat -> combine l (l1 ++ l2) = combine l l1.
Proof.
  induction l as [|a l IH]; intros l1 l2 H; [reflexivity |].
  destruct l1 as [|b l1]; [cbn in H; lia |].
  cbn [app combine]. f_equal. apply IH. cbn in H. lia.
Qed.

(** X5.  Entered with any buffer [old], the loop of lines 362-376 gives
    point [i] the negation of entry [i] of [old] followed by the values
    interpolated in this loop, and leaves all of these in the buffer.  With
    a buffer at least as long as the boundary, every point gets a value of
    [old], not the one interpolated at it: line 378 has to clear the buffer
    for the next iteration. *)
Theorem mapper_reads_buffer_from_front
  (e : Engines) (points : list LSM.BoundaryPoint) (old : list double) :
  Forall two_slots points ->
  assign_sensitivities (length points) 0 e (points, old)
  = Some (map point_with
            (combine points (old ++ map (interpolate_at e) points)),
          old ++ map (interpolate_at e) points)
  /\ ((length points <= length old)%nat ->
      combine points (old ++ map (interpolate_at e) points)
      = combine points old).
Proof.
  intros Hs. split.
  - exact (@assign_sensitivities_from e points [] old (Nat.le_0_l _) Hs).
  - intros Hl. apply combine_front. exact Hl.
Qed.

Lemma mapper_reads_buffer_from_front_witness :
  Forall two_slots [stub_point 1 2; stub_point 3 4]
  /\ assign_sensitivities (length [stub_point 1 2; stub_point 3 4]) 0
       (stub 1) ([stub_point 1 2; stub_point 3 4], [10; 20; 30]%float)
     = Some (map point_with
               (combine [stub_point 1 2; stub_point 3 4]
                  ([10; 20; 30]%float
                   ++ map (interpolate_at (stub 1))
                        [stub_point 1 2; stub_point 3 4])),
             [10; 20; 30]%float
             ++ map (interpolate_at (stub 1))
                  [stub_point 1 2; stub_point 3 4])
  /\ ((length [stub_point 1 2; stub_point 3 4]
       <= length [10; 20; 30]%float)%nat ->
      combine [stub_point 1 2; stub_point 3 4]
        ([10; 20; 30]%float
         ++ map (interpolate_at (stub 1)) [stub_point 1 2; stub_point 3 4])
      = combine [stub_point 1 2; stub_point 3 4] [10; 20; 30]%float).
Proof.
  assert (H : Forall two_slots [stub_point 1 2; stub_point 3 4])
    by (repeat constructor; unfold two_slots; cbn; lia).
  exact (conj H (@mapper_reads_buffer_from_front (stub 1)
                   [stub_point 1 2; stub_point 3 4] [10; 20; 30]%float H)).
Defined.

(** With the buffer 10, 20, 30 left over, the two points of the scripted
    run get -10 and -20 instead of -3 and -7. *)
Example stale_buffer_run :
  option_map (fun pb => map LSM.sensitivities (fst pb))
    (assign_sensitivities 2 0 (stub 1)
       ([stub_point 1 2; stub_point 3 4], [10; 20; 30]%float))
  = Some [[-10; -1]; [-20; -1]]%float.
Proof. vm_compute. reflexivity. Qed.

(** X6.  The loop of lines 362-376 stays within the vectors it indexes
    exactly when every boundary point has room for two sensitivities,
    whatever the buffer holds on entry. *)
Theorem mapper_in_range_iff_two_slots
  (e : Engines) (points : list LSM.BoundaryPoint) (old : list double) :
  assign_sensitivities (length points) 0 e (points, old) <> None
  <-> Forall two_slots points.
Proof.
  split.
  - intros H.
    destruct (Forall_dec two_slots
                (fun p => le_dec 2 (length (LSM.sensitivities p))) points)
      as [Hs | Hs]; [exact Hs |].
    exfalso. apply H.
    exact (@assign_sensitivities_fails e points [] old (Nat.le_0_l _) Hs).
  - intros Hs.
    pose proof (@assign_sensitivities_from e points [] old (Nat.le_0_l _) Hs)
      as E.
    cbn [length app] in E. rewrite E. discriminate.
Qed.

(** ** The area-fraction loop and the two meshes *)

Lemma assign_area_fractions_fails (lsm : list double) (rest : list double) :
  forall done,
    (length done <= length lsm)%nat ->
    (length lsm < length done + length rest)%nat ->
    assign_area_fractions (length rest) (length done) lsm (done ++ rest)
    = None.
Proof.
  induction rest as [|r rest IH]; intros done Hd Hl.
  - cbn in Hl. lia.
  - cbn [length assign_area_fractions].
    destruct (nth_error lsm (length done)) as [a|] eqn:Ea; [|reflexivity].
    cbn [bind]. rewrite assign_middle. cbn [bind].
    assert (Hlt : (length done < length lsm)%nat)
      by (apply nth_error_Some; rewrite Ea; discriminate).
    replace (S (length done)) with (length (done ++ [clamp_area a]))
      by (rewrite length_app; cbn; lia).
    replace (done ++ clamp_area a :: rest)
      with ((done ++ [clamp_area a]) ++ rest)
      by (rewrite <- app_assoc; reflexivity).
    apply IH.
    + rewrite length_app. cbn. lia.
    + rewrite length_app. cbn. cbn in Hl. lia.
Qed.

(** X7.  The loop of lines 338-344 stays within [lsm_mesh.elements] exactly
    when the level-set mesh has at least as many elements as the FEA mesh.
    Then it keeps the number of FEA elements, overwrites every one of them
    whatever it held, looks at no level-set element beyond that number, and
    leaves no area fraction below 1e-6. *)
Theorem area_loop_in_range_iff (lsm fea : list double) :
  (assign_area_fractions (length fea) 0 lsm fea <> None
   <-> (length fea <= length lsm)%nat)
  /\ (forall fea',
        assign_area_fractions (length fea) 0 lsm fea = Some fea' ->
        length fea' = length fea
        /\ fea' = map clamp_area (firstn (length fea) lsm)
        /\ Forall (fun a => (a <? 1e-6)%float = false) fea').
Proof.
  split; [split |].
  - intros H. destruct (le_lt_dec (length fea) (length lsm)) as [Hl | Hl];
      [exact Hl |].
    exfalso. apply H.
    exact (@assign_area_fractions_fails lsm fea [] (Nat.le_0_l _) Hl).
  - intros Hl. rewrite assign_area_fractions_spec by exact Hl. discriminate.
  - intros fea' H.
    destruct (le_lt_dec (length fea) (length lsm)) as [Hl | Hl].
    + rewrite assign_area_fractions_spec in H by exact Hl.
      injection H as <-. split; [|split].
      * rewrite length_map, length_firstn. lia.
      * reflexivity.
      * apply Forall_map, Forall_forall. intros a _.
        apply clamp_area_not_below.
    + pose proof (@assign_area_fractions_fails lsm fea [] (Nat.le_0_l _) Hl)
        as E.
      cbn [length app] in E. rewrite E in H. discriminate H.
Qed.

(** An FEA mesh of three elements over a level-set mesh of two: the third
    read is out of range. *)
Example area_loop_short_mesh :
  assign_area_fractions 3 0 [0.5; 0.5]%float [1; 1; 1]%float = None.
Proof. reflexivity. Qed.

(** ** The point load *)

Lemma load_values_loop_from (n : uint) (todo : nat) :
  forall (i : nat) (pre : list double),
    length pre = (2 * i)%nat ->
    Z.of_nat i + Z.of_nat todo < 2 ^ 31 ->
    load_values_loop todo (Z.of_nat i) n
      (pre ++ repeat 0%float (2 * todo))
    = Some (pre
            ++ concat (repeat [0; -3.0 / Std.of_uint n]%float todo)).
Proof.
  pose proof (eq_refl : 2 ^ 31 = 2147483648) as P31.
  pose proof (eq_refl : 2 ^ 32 = 4294967296) as P32.
  induction todo as [|todo IH]; intros i pre Hp Hb.
  - reflexivity.
  - cbn [load_values_loop]. unfold double in *.
    replace (2 * S todo)%nat with (S (S (2 * todo))) by lia.
    cbn [repeat].
    replace (Z.to_nat (wrap32 (2 * Z.of_nat i))) with (length pre)
      by (rewrite wrap32_small by lia; lia).
    rewrite assign_middle. cbn [bind].
    replace (Z.to_nat (wrap32 (wrap32 (2 * Z.of_nat i) + 1)))
      with (length (pre ++ [0%float]))
      by (rewrite length_app, (wrap32_small (z := 2 * Z.of_nat i)) by lia;
          rewrite wrap32_small by lia; cbn [length]; lia).
    replace (pre ++ 0%float :: 0%float :: repeat 0%float (2 * todo))
      with ((pre ++ [0%float]) ++ 0%float :: repeat 0%float (2 * todo))
      by (rewrite <- app_assoc; reflexivity).
    rewrite assign_middle. cbn [bind].
    replace (wrap32 (Z.of_nat i + 1)) with (Z.of_nat (S i))
      by (rewrite wrap32_small by lia; lia).
    replace ((pre ++ [0%float])
             ++ (-3.0 / Std.of_uint n)%float :: repeat 0%float (2 * todo))
      with ((pre ++ [0; -3.0 / Std.of_uint n]%float)
            ++ repeat 0%float (2 * todo))
      by (rewrite <- !app_assoc; reflexivity).
    rewrite IH.
    + cbn [repeat concat]. rewrite <- !app_assoc. reflexivity.
    + rewrite length_app. cbn [length]. lia.
    + lia.
Qed.

(** X8.  For fewer than 2^31 load nodes the loop of lines 108-113 stays
    within [load_values] and fills it with one pair per node: 0.0 for the
    x component and -3.0 / num_load_nodes for the y component, the same for
    every node.  Without load nodes the vector is empty and nothing is
    divided. *)
Theorem point_load_shared_equally (size : Z) :
  0 <= size < 2 ^ 31 ->
  point_load_values size
  = Some (concat (repeat [0; -3.0 / Std.of_uint size]%float
                    (Z.to_nat size)))
  /\ (size = 0 -> point_load_values size = Some []).
Proof.
  intros H.
  pose proof (eq_refl : 2 ^ 31 = 2147483648) as P31.
  pose proof (eq_refl : 2 ^ 32 = 4294967296) as P32.
  pose proof (eq_refl : 2 ^ 64 = 18446744073709551616) as P64.
  assert (E : point_load_values size
              = Some (concat (repeat [0; -3.0 / Std.of_uint size]%float
                                (Z.to_nat size)))).
  { unfold point_load_values. rewrite wrap32_small by lia.
    rewrite Z.mod_small by lia.
    replace (Z.to_nat (size * 2)) with (2 * Z.to_nat size)%nat by lia.
    exact (@load_values_loop_from size (Z.to_nat size) 0 [] eq_refl
             ltac:(cbn; lia)). }
  split; [exact E |].
  intros ->. reflexivity.
Qed.

Lemma point_load_shared_equally_witness :
  0 <= 3 < 2 ^ 31
  /\ point_load_values 3
     = Some (concat (repeat [0; -3.0 / Std.of_uint 3%Z]%float (Z.to_nat 3)))
  /\ (3 = 0 -> point_load_values 3 = Some []).
Proof.
  refine (conj _ (@point_load_shared_equally 3 _)); lia.
Defined.

(** Three load nodes: each carries -1 in y. *)
Example point_load_three_nodes :
  point_load_values 3 = Some [0; -1; 0; -1; 0; -1]%float.
Proof. vm_compute. reflexivity. Qed.

(** ** The guard of the window loop *)

Lemma window_read_out (values : list double) (k i : Z) :
  0 <= k <= i -> i <= 5 -> (length values <= 5)%nat ->
  nth_error values (Z.to_nat (wrap32 (wrap32 (k - i) - 1))) = None.
Proof.
  intros Hk Hi Hl. apply nth_error_None.
  assert (H : 4294967290 <= wrap32 (wrap32 (k - i) - 1)).
  { unfold wrap32. change (2 ^ 32) with 4294967296.
    Z.div_mod_to_equations. lia. }
  lia.
Qed.

Lemma difference_loop_out (values : list double) (k : Z) (vk : double) :
  0 <= k <= 5 -> (length values <= 5)%nat ->
  forall (todo : nat) (i : Z) (rd : double),
    1 <= i <= Z.max k 1 ->
    Z.max k 1 < i + Z.of_nat todo <= 6 ->
    difference_loop todo i k vk values rd = None.
Proof.
  intros Hk Hl. induction todo as [|todo IH]; intros i rd Hi Ht; [lia |].
  cbn [difference_loop].
  destruct (Z_le_gt_dec k i) as [Hki | Hki].
  - rewrite window_read_out by lia. reflexivity.
  - destruct (nth_error values (Z.to_nat (wrap32 (wrap32 (k - i) - 1))));
      [|reflexivity].
    cbn [bind].
    rewrite (wrap32_small (z := i + 1))
      by (change (2 ^ 32) with 4294967296; lia).
    apply IH; lia.
Qed.

(** X9.  With one objective per completed iteration in the history, the
    convergence criterion of lines 436-449 never reads outside the history,
    and the guard [count_iter > 5] is what makes it so: the window loop on
    its own stays within the history exactly when it holds at least 6
    values. *)
Theorem window_guard_is_tight (values : list double) (vk rd : double) :
  Z.of_nat (length values) < 2 ^ 32 ->
  convergence_criterion (Z.of_nat (length values)) vk values rd <> None
  /\ (difference_loop 5 1 (Z.of_nat (length values)) vk values 0%float
      <> None
      <-> (6 <= length values)%nat).
Proof.
  intros Hb.
  assert (Hin : (6 <= length values)%nat ->
                difference_loop 5 1 (Z.of_nat (length values)) vk values
                  0%float <> None)
    by (intros H; rewrite difference_loop_spec by auto; discriminate).
  split; [|split; [|exact Hin]].
  - unfold convergence_criterion.
    destruct (Z.ltb_spec 5 (Z.of_nat (length values))) as [H | H];
      [apply Hin; lia | discriminate].
  - intros H.
    destruct (le_lt_dec 6 (length values)) as [H6 | H6]; [exact H6 |].
    exfalso. apply H. apply difference_loop_out; lia.
Qed.

Lemma window_guard_is_tight_witness :
  Z.of_nat (length [1; 2; 3]%float) < 2 ^ 32
  /\ convergence_criterion (Z.of_nat (length [1; 2; 3]%float)) 3%float
       [1; 2; 3]%float 1%float <> None
  /\ (difference_loop 5 1 (Z.of_nat (length [1; 2; 3]%float)) 3%float
        [1; 2; 3]%float 0%float <> None
      <-> (6 <= length [1; 2; 3]%float)%nat).
Proof.
  refine (conj _ (@window_guard_is_tight [1; 2; 3]%float 3%float 1%float _));
    cbn; lia.
Defined.

(** ** The calls of an iteration, in order *)

Lemma filter_pair (P : uint * Call -> bool) (t : uint) (l : list Call) :
  filter P (map (pair t) l) = map (pair t) (filter (fun c => P (t, c)) l).
Proof.
  induction l as [|c l IH]; [reflexivity |].
  cbn [map filter]. destruct (P (t, c)); cbn [map]; rewrite IH; reflexivity.
Qed.


Lemma filter_map_none {A} (P : Call -> bool) (f : A -> Call) (l : list A) :
  (forall a, P (f a) = false) -> filter P (map f l) = [].
Proof.
  intros H. induction l as [|a l IH]; [reflexivity |].
  cbn [map filter]. rewrite H, IH. reflexivity.
Qed.



(** X11.  Every completed iteration [k] ends with
    [level_set.update(time_step)], on the time step the optimiser solved
    for in that iteration, then [level_set.reinitialise()] when [k >= 2] and
    the update answered [false], then the three snapshots with index [k];
    no update, reinitialisation or snapshot comes earlier in the
    iteration. *)
Theorem iteration_ends_with_update_and_snapshots
  (fea0 : list double) (o : oracle) (k : nat) :
  engines_ok fea0 o -> (1 <= k <= 500)%nat ->
  exists cs pre,
    calls_during fea0 o k = Some cs
    /\ cs = pre
            ++ [(Z.of_nat k, level_set_update
                               (solve_time_step (o (Z.of_nat k))))]
            ++ (if (2 <=? k)%nat
                   && negb (update_reinitialised (o (Z.of_nat k)))
                then [(Z.of_nat k, level_set_reinitialise)] else [])
            ++ [(Z.of_nat k, io_saveLevelSetVTK (Z.of_nat k));
                (Z.of_nat k, io_saveAreaFractionsVTK (Z.of_nat k));
                (Z.of_nat k, io_saveBoundarySegmentsTXT (Z.of_nat k))]
    /\ filter is_late pre = [].
Proof.
  intros Hok Hk.
  exists (calls_at fea0 o k), (map (pair (Z.of_nat k)) (early_calls fea0 o k)).
  split; [exact (calls_during_at Hok Hk) |].
  fold (forced_at o k). split.
  - unfold calls_at, call_list, early_calls.
    rewrite !map_app. cbn [map]. rewrite <- !app_assoc. cbn [app].
    destruct (forced_at o k); reflexivity.
  - rewrite filter_pair. unfold early_calls.
    rewrite !filter_app. cbn [filter is_late is_snapshot snd app].
    rewrite filter_map_none by reflexivity. reflexivity.
Qed.

Lemma iteration_ends_with_update_and_snapshots_witness :
  engines_ok stub_fea0 stub /\ (1 <= 4 <= 500)%nat
  /\ exists cs pre,
      calls_during stub_fea0 stub 4 = Some cs
      /\ cs = pre
              ++ [(Z.of_nat 4, level_set_update
                                 (solve_time_step (stub (Z.of_nat 4))))]
              ++ (if (2 <=? 4)%nat
                     && negb (update_reinitialised (stub (Z.of_nat 4)))
                  then [(Z.of_nat 4, level_set_reinitialise)] else [])
              ++ [(Z.of_nat 4, io_saveLevelSetVTK (Z.of_nat 4));
                  (Z.of_nat 4, io_saveAreaFractionsVTK (Z.of_nat 4));
                  (Z.of_nat 4, io_saveBoundarySegmentsTXT (Z.of_nat 4))]
      /\ filter is_late pre = [].
Proof.
  refine (conj stub_ok
            (conj _ (@iteration_ends_with_update_and_snapshots
                       stub_fea0 stub 4 stub_ok _)));
    lia.
Defined.
